(** * claude-code-api: the bridge of [main.py], embedded and verified

    [main.py] wraps the Claude Code command-line tool behind an
    OpenAI-compatible HTTP surface.  This development embeds the parts of
    it that carry behaviour: the Python string primitives it relies on,
    the response extractor, the model table, the subprocess runner, and
    the two handlers [create_chat_completion] and [health_check].

    Layout: every definition comes first (modules [Py], [Float64],
    [Effects], [Main] and [Routes] for the program, [Reference] and
    [Coverage] for the vocabulary of the statements); the lemmas and
    theorems follow. *)

From Stdlib Require Import ZArith NArith List Bool Lia String Ascii.
From Stdlib Require Import Numbers.DecimalString.
From Stdlib Require Import Floats.SpecFloat.
Import ListNotations.

Set Implicit Arguments.

(* ================================================================== *)
(** * Python strings *)
(* ================================================================== *)

Module Py.

(** A Python [str] is a sequence of Unicode code points; [len], slicing,
    [strip] and [split] all count code points, not bytes. *)
Definition char := N.
Definition str := list char.

(** ASCII literals.  The two box-drawing characters of the noise table
    are outside ASCII and are written as code points where they occur. *)
Definition lit (s : string) : str :=
  map N_of_ascii (list_ascii_of_string s).

Definition nl : char := 10%N.
Definition dquote : char := 34%N.

Fixpoint str_eqb (a b : str) : bool :=
  match a, b with
  | [], [] => true
  | x :: a', y :: b' => N.eqb x y && str_eqb a' b'
  | _, _ => false
  end.

(** [bool(s)] for a string: the empty string is the only falsy one. *)
Definition truthy (s : str) : bool :=
  match s with [] => false | _ :: _ => true end.

Definition len (s : str) : Z := Z.of_nat (List.length s).

(** [str.isspace] on one code point, as CPython's
    [_PyUnicode_IsWhitespace] lists them. *)
Definition isspace (c : char) : bool :=
  ((9 <=? c) && (c <=? 13) || (28 <=? c) && (c <=? 32)
   || (c =? 133) || (c =? 160) || (c =? 5760)
   || (8192 <=? c) && (c <=? 8202)
   || (c =? 8232) || (c =? 8233) || (c =? 8239) || (c =? 8287)
   || (c =? 12288))%N.

(** [s.lstrip()], [s.rstrip()], [s.strip()] without argument. *)
Fixpoint lstrip (s : str) : str :=
  match s with
  | [] => []
  | c :: s' => if isspace c then lstrip s' else s
  end.

Fixpoint rstrip (s : str) : str :=
  match s with
  | [] => []
  | c :: s' =>
      match rstrip s' with
      | [] => if isspace c then [] else [c]
      | r => c :: r
      end
  end.

Definition strip (s : str) : str := rstrip (lstrip s).

(** [s.split(sep)] for a one-character separator: never an empty list,
    [''.split(sep) == ['']]. *)
Fixpoint split_on (sep : char) (s : str) : list str :=
  match s with
  | [] => [[]]
  | c :: s' =>
      if N.eqb c sep then [] :: split_on sep s'
      else match split_on sep s' with
           | l :: ls => (c :: l) :: ls
           | [] => [[c]]
           end
  end.

(** [s.split()] without argument: the maximal runs of non-whitespace.
    [cur] is the run being read, in order. *)
Fixpoint split_ws_from (cur : str) (s : str) : list str :=
  match s with
  | [] => match cur with [] => [] | _ => [cur] end
  | c :: s' =>
      if isspace c
      then match cur with
           | [] => split_ws_from [] s'
           | _ => cur :: split_ws_from [] s'
           end
      else split_ws_from (cur ++ [c]) s'
  end.

Definition split_ws (s : str) : list str := split_ws_from [] s.

(** [sep.join(parts)]. *)
Fixpoint join (sep : str) (parts : list str) : str :=
  match parts with
  | [] => []
  | [p] => p
  | p :: rest => p ++ sep ++ join sep rest
  end.

(** [pat in s]: [pat] occurs in [s] as a contiguous run. *)
Fixpoint startswith (pat s : str) : bool :=
  match pat, s with
  | [], _ => true
  | _ :: _, [] => false
  | p :: pat', c :: s' => N.eqb p c && startswith pat' s'
  end.

Fixpoint contains (pat s : str) : bool :=
  startswith pat s ||
  match s with
  | [] => false
  | _ :: s' => contains pat s'
  end.

(** [str(n)] for an [int]. *)
Definition str_of_int (n : Z) : str :=
  lit (NilZero.string_of_int (Z.to_int n)).

(** A [dict] with string keys, as an insertion-ordered association list:
    [d.get(k, default)] and [d[k] = v]. *)
Definition dict (V : Type) := list (str * V).

Fixpoint dict_get {V} (d : dict V) (k : str) (default : V) : V :=
  match d with
  | [] => default
  | (k', v) :: d' => if str_eqb k' k then v else dict_get d' k default
  end.

Fixpoint dict_set {V} (d : dict V) (k : str) (v : V) : dict V :=
  match d with
  | [] => [(k, v)]
  | (k', v') :: d' =>
      if str_eqb k' k then (k', v) :: d' else (k', v') :: dict_set d' k v
  end.

End Py.

(* ================================================================== *)
(** * Python floats *)
(* ================================================================== *)

Module Float64.
Local Open Scope Z_scope.

(** A Python [float] is an IEEE 754 binary64 number.  A finite one is
    carried as [mant * 2^expo]; every operation computes the exact
    result and rounds it to 53 significant bits, ties to even.  The
    exponent range is not modelled: the handler's values stay between
    [2^-52] and the length of a string. *)
Record float := mk { mant : Z; expo : Z }.

Definition prec : Z := 53.

(** [m / 2^s] rounded to the nearest integer, ties to even. *)
Definition rne (m s : Z) : Z :=
  let q := m / 2 ^ s in
  let r := m mod 2 ^ s in
  let half := 2 ^ (s - 1) in
  if r <? half then q
  else if half <? r then q + 1
  else if Z.even q then q else q + 1.

(** Rounding of the exact value [m * 2^e] to a binary64 number. *)
Definition round (m e : Z) : float :=
  let s := Z.log2 (Z.abs m) + 1 - prec in
  if s <=? 0 then mk m e else mk (rne m s) (e + s).

(** [float(n)] for an [int]. *)
Definition of_int (n : Z) : float := round n 0.

Definition mul (x y : float) : float :=
  round (mant x * mant y) (expo x + expo y).

Definition add (x y : float) : float :=
  let e := Z.min (expo x) (expo y) in
  round (mant x * 2 ^ (expo x - e) + mant y * 2 ^ (expo y - e)) e.

(** [int(x)]: truncation toward zero. *)
Definition trunc (x : float) : Z :=
  if 0 <=? expo x then mant x * 2 ^ expo x
  else Z.quot (mant x) (2 ^ (- expo x)).

(** The literal [1.3], that is [0x1.4cccccccccccdp+0]. *)
Definition lit_1_3 : float := mk 5854679515581645 (-52).

End Float64.

(* ================================================================== *)
(** * Exceptions and effects *)
(* ================================================================== *)

Module Effects.
Import Py.

(** The exception classes the program raises or catches.  All three are
    subclasses of [Exception]. *)
Inductive exn :=
| HTTPException (status_code : Z) (detail : str)
| TimeoutExpired (message : str)
| Exception (message : str).

(** The exceptions that derive from [BaseException] without deriving
    from [Exception].  No [except] clause of the program names them:
    each clause names [Exception] or one of its subclasses, so these
    pass through every [try] of the program. *)
Inductive base_exn :=
| KeyboardInterrupt
| SystemExit (code : Z)
| GeneratorExit.

(** [str(e)]. *)
Definition exn_str (e : exn) : str :=
  match e with
  | HTTPException status_code detail =>
      str_of_int status_code ++ lit ": " ++ detail
  | TimeoutExpired message => message
  | Exception message => message
  end.

(** What a handler leaves behind in the world: children started and
    killed.  [Invoked] is written by a recording double of the runner. *)
Inductive event :=
| Popen (command : str) (env : dict str) (cwd : str)
| Kill
| Invoked (message model : str).

Inductive result (A : Type) :=
| Return (a : A)
| Raise (e : exn)
| Abort (b : base_exn).
Arguments Raise {A} e.
Arguments Abort {A} b.

(** A computation reads and extends the trace and either returns, or
    raises an exception of class [Exception] ([Raise]), or raises one
    outside that class ([Abort]). *)
Definition M (A : Type) := list event -> result A * list event.

Definition ret {A} (a : A) : M A := fun t => (Return a, t).

Definition raise {A} (e : exn) : M A := fun t => (Raise e, t).

Definition bind {A B} (c : M A) (k : A -> M B) : M B :=
  fun t =>
    match c t with
    | (Return a, t') => k a t'
    | (Raise e, t') => (Raise e, t')
    | (Abort b, t') => (Abort b, t')
    end.

Definition emit (ev : event) : M unit := fun t => (Return tt, t ++ [ev]).

(** [try: body  except ...: handler], for [except] clauses that name
    [Exception] or subclasses of it.  The handler answers [None] for an
    exception no clause matches, which then propagates; an exception
    outside [Exception] is never offered to the handler. *)
Definition try_except {A} (body : M A) (handler : exn -> option (M A)) : M A :=
  fun t =>
    match body t with
    | (Return a, t') => (Return a, t')
    | (Raise e, t') =>
        match handler e with
        | Some h => h t'
        | None => (Raise e, t')
        end
    | (Abort b, t') => (Abort b, t')
    end.

End Effects.

Declare Scope py_scope.
Delimit Scope py_scope with py.
Notation "x <- c ;; k" := (Effects.bind c (fun x => k))
  (at level 61, c at next level, right associativity) : py_scope.
Notation "c ;;; k" := (Effects.bind c (fun _ => k))
  (at level 61, right associativity) : py_scope.

(* ================================================================== *)
(** * main.py *)
(* ================================================================== *)

Module Main.
Import Py Effects.
Local Open Scope py_scope.

(** ** Pydantic models *)

Record ChatMessage := {
  role : str;
  content : str;
  name : option str
}.

Record ChatCompletionRequest := {
  model : str;
  messages : list ChatMessage;
  max_tokens : option Z;
  temperature : option Float64.float;
  top_p : option Float64.float;
  n : option Z;
  stream : option bool;
  stop : option (str + list str);
  presence_penalty : option Float64.float;
  frequency_penalty : option Float64.float;
  logit_bias : option (dict Float64.float);
  user : option str
}.

Record ChatCompletionChoice := {
  index : Z;
  message : ChatMessage;
  finish_reason : str
}.

Record ChatCompletionUsage := {
  prompt_tokens : Z;
  completion_tokens : Z;
  total_tokens : Z
}.

Record ChatCompletionResponse := {
  id : str;
  object : str;
  created : Z;
  response_model : str;
  choices : list ChatCompletionChoice;
  usage : ChatCompletionUsage
}.

(** ** The world outside the process *)

(** What [process.communicate(timeout=...)] does. *)
Inductive communicate_outcome :=
| Communicated (stdout stderr : str) (returncode : Z)
| CommunicateRaises (e : exn)
| CommunicateAborts (b : base_exn).

(** What [subprocess.Popen(...)] does: it raises, or it yields a child
    whose behaviour may depend on the timeout it is waited for with.
    Starting a child and waiting for it are the two places where the
    process can be interrupted ([KeyboardInterrupt], [SystemExit]). *)
Inductive popen_outcome :=
| PopenRaises (e : exn)
| PopenAborts (b : base_exn)
| Process (child : Z -> communicate_outcome).

Record World := {
  environ : dict str;
  expanduser_home : str;
  spawn : str -> dict str -> str -> popen_outcome;
  uuid4_hex : str;
  time_time : Float64.float
}.

Definition subprocess_Popen (w : World) (command : str) (env : dict str)
    (cwd : str) : M (Z -> communicate_outcome) :=
  emit (Popen command env cwd) ;;;
  match spawn w command env cwd with
  | PopenRaises e => raise e
  | PopenAborts b => fun t => (Abort b, t)
  | Process child => ret child
  end.

(** [process.communicate(timeout)], with [process.returncode] read
    right after it. *)
Definition communicate (process : Z -> communicate_outcome) (timeout : Z)
    : M (str * str * Z) :=
  match process timeout with
  | Communicated stdout stderr returncode => ret (stdout, stderr, returncode)
  | CommunicateRaises e => raise e
  | CommunicateAborts b => fun t => (Abort b, t)
  end.

Definition kill (process : Z -> communicate_outcome) : M unit := emit Kill.

(** ** ClaudeCodeInterface *)

Definition skip_patterns : list str :=
  [ lit "Loading project";
    lit "Analyzing codebase";
    lit "Working directory:";
    lit "Press Ctrl+C";
    lit "Conversation saved";
    lit "Session";
    [9472; 9472; 9472]%N;
    [9474]%N ].

(** One turn of the [for line in lines] loop. *)
Definition extract_step (response_lines : list str) (line : str) : list str :=
  if negb (truthy (strip line)) then response_lines
  else if existsb (fun pattern => contains pattern line) skip_patterns
  then response_lines
  else response_lines ++ [strip line].

Definition extract_claude_response (output : str) : str :=
  let lines := split_on nl (strip output) in
  let response_lines := fold_left extract_step lines [] in
  let response := join [nl] response_lines in
  if negb (truthy response) || (len response <? 10)%Z
  then strip output
  else response.

Definition model_mapping : dict str :=
  [ (lit "claude-sonnet-4", lit "claude-sonnet-4-20250514");
    (lit "claude-opus-4", lit "claude-opus-4-20250514");
    (lit "claude-opus-4.1", lit "claude-opus-4-1-20250805");
    (lit "claude-sonnet-3.7", lit "claude-3-7-sonnet-20250219");
    (lit "claude-haiku-3.5", lit "claude-3-5-haiku-20241022");
    (lit "claude-sonnet-4-20250514", lit "claude-sonnet-4-20250514");
    (lit "claude-opus-4-20250514", lit "claude-opus-4-20250514");
    (lit "claude-opus-4-1-20250805", lit "claude-opus-4-1-20250805");
    (lit "claude-3-7-sonnet-20250219", lit "claude-3-7-sonnet-20250219");
    (lit "claude-3-5-haiku-20241022", lit "claude-3-5-haiku-20241022") ].

(** [model_mapping.get(model, "claude-sonnet-4-20250514")]. *)
Definition claude_model (model : str) : str :=
  dict_get model_mapping model (lit "claude-sonnet-4-20250514").

Definition default_model : str := lit "claude-sonnet-4-20250514".

Definition child_env (w : World) : dict str :=
  let env := environ w in
  let env := dict_set env (lit "NODE_ENV") (lit "production") in
  let env := dict_set env (lit "NODE_OPTIONS") (lit "--max-old-space-size=512") in
  let env := dict_set env (lit "CLAUDE_DISABLE_TELEMETRY") (lit "1") in
  dict_set env (lit "CLAUDE_DISABLE_ANALYTICS") (lit "1").

Definition command_line (model message : str) : str :=
  lit "npx claude --model " ++ claude_model model
  ++ lit " --dangerously-skip-permissions " ++ [dquote] ++ message ++ [dquote].

(** The object the handlers call.  [timeout] is [self.timeout]. *)
Record ClaudeCodeInterface := {
  timeout : Z;
  run_claude_command : str -> str -> M (bool * str)
}.

(** [ClaudeCodeInterface.run_claude_command].  The logger calls have no
    effect on the result and are left out. *)
Definition run_claude_command_impl (w : World) (self_timeout : Z)
    (message model : str) : M (bool * str) :=
  try_except
    (let env := child_env w in
     let command := command_line model message in
     process <- subprocess_Popen w command env (expanduser_home w) ;;
     try_except
       (out <- communicate process self_timeout ;;
        let '(stdout, stderr, return_code) := out in
        if (return_code =? 0)%Z
        then
          let response := extract_claude_response stdout in
          ret (true, response)
        else
          let error_msg :=
            if truthy stderr then strip stderr
            else lit "Exit code " ++ str_of_int return_code in
          ret (false, error_msg))
       (fun e =>
          match e with
          | TimeoutExpired _ =>
              Some (kill process ;;; ret (false, lit "Command timed out"))
          | _ => None
          end))
    (fun e => Some (ret (false, exn_str e))).

(** [claude_interface = ClaudeCodeInterface()]. *)
Definition claude_interface (w : World) : ClaudeCodeInterface :=
  {| timeout := 300;
     run_claude_command := run_claude_command_impl w 300 |}.

(** ** Handlers *)

(** [for msg in reversed(request.messages): ... break], run over the
    reversed list; [user_message] is the value set before the loop. *)
Fixpoint last_user_loop (reversed_messages : list ChatMessage)
    (user_message : str) : str :=
  match reversed_messages with
  | [] => user_message
  | msg :: rest =>
      if str_eqb (role msg) (lit "user") then content msg
      else last_user_loop rest user_message
  end.

(** [len(text.split()) * 1.3]. *)
Definition estimate_tokens (text : str) : Float64.float :=
  Float64.mul
    (Float64.of_int (Z.of_nat (List.length (split_ws text))))
    Float64.lit_1_3.

Definition create_chat_completion (iface : ClaudeCodeInterface) (w : World)
    (request : ChatCompletionRequest) : M ChatCompletionResponse :=
  try_except
    (let user_message := last_user_loop (rev (messages request)) [] in
     if negb (truthy user_message)
     then raise (HTTPException 400
                   (lit "No user message found in the conversation"))
     else
       out <- run_claude_command iface user_message (model request) ;;
       let '(success, response) := out in
       if negb success
       then raise (HTTPException 500 (lit "Claude Code CLI error: " ++ response))
       else
         let completion_id := lit "chatcmpl-" ++ uuid4_hex w in
         let created_timestamp := Float64.trunc (time_time w) in
         let prompt_tokens := estimate_tokens user_message in
         let completion_tokens := estimate_tokens response in
         let total_tokens :=
           Float64.trunc (Float64.add prompt_tokens completion_tokens) in
         ret {| id := completion_id;
                object := lit "chat.completion";
                created := created_timestamp;
                response_model := model request;
                choices :=
                  [ {| index := 0;
                       message := {| role := lit "assistant";
                                     content := response;
                                     name := None |};
                       finish_reason := lit "stop" |} ];
                usage := {| prompt_tokens := Float64.trunc prompt_tokens;
                            completion_tokens := Float64.trunc completion_tokens;
                            total_tokens := total_tokens |} |})
    (fun e =>
       match e with
       | HTTPException _ _ => None
       | _ => Some (raise (HTTPException 500
                             (lit "Internal server error: " ++ exn_str e)))
       end).

Definition health_check (iface : ClaudeCodeInterface) : M (dict str) :=
  try_except
    (out <- run_claude_command iface (lit "Hi") default_model ;;
     let '(success, _) := out in
     if success
     then ret [ (lit "status", lit "healthy");
                (lit "claude_code", lit "available") ]
     else ret [ (lit "status", lit "degraded");
                (lit "claude_code", lit "unavailable") ])
    (fun e => Some (ret [ (lit "status", lit "unhealthy");
                          (lit "error", exn_str e) ])).

End Main.

(* ================================================================== *)
(** * main.py: the model catalogue *)
(* ================================================================== *)

Module Routes.
Import Py.

(** One entry of the [data] list [list_models] answers with. *)
Record ModelCard := {
  id : str;
  object : str;
  created : Z;
  owned_by : str;
  permission : list str;
  root : str;
  parent : option str
}.

Record ModelList := {
  list_object : str;
  data : list ModelCard
}.

Definition card (name : str) : ModelCard :=
  {| id := name;
     object := lit "model";
     created := 1678900000;
     owned_by := lit "anthropic-claude-code";
     permission := [];
     root := name;
     parent := None |}.

(** [GET /v1/models]. *)
Definition list_models : ModelList :=
  {| list_object := lit "list";
     data := [ card (lit "claude-sonnet-4");
               card (lit "claude-opus-4");
               card (lit "claude-opus-4.1");
               card (lit "claude-sonnet-3.7");
               card (lit "claude-haiku-3.5") ] |}.

End Routes.

(* ================================================================== *)
(** * Vocabulary of the statements *)
(* ================================================================== *)

Module Reference.
Import Py Effects Main.
Local Open Scope py_scope.

(** A line is blank when nothing is left of it after trimming, and noise
    when it contains one of the [skip_patterns]. *)
Definition blank (line : str) : bool := negb (truthy (strip line)).

Definition noisy (line : str) : bool :=
  existsb (fun pattern => contains pattern line) skip_patterns.

(** The extractor as section 4.3 of the specification words it, over the
    lines of the raw text: drop blank lines, drop noise lines, trim what
    is left, rejoin with newlines; fall back to the trimmed raw text when
    the result is empty or shorter than 10 characters. *)
Definition keeps (line : str) : bool := negb (blank line) && negb (noisy line).

Definition cleaned (lines : list str) : list str := map strip (filter keeps lines).

Definition extract_by_the_words (raw_stdout : str) : str :=
  let text := join [nl] (cleaned (split_on nl raw_stdout)) in
  if str_eqb text [] || (len text <? 10)%Z then strip raw_stdout else text.

(** A recording double of the runner: it notes each invocation and
    answers with a canned outcome. *)
Definition double (answer : str -> str -> result (bool * str))
    : ClaudeCodeInterface :=
  {| timeout := 300;
     run_claude_command := fun message model t =>
       (answer message model, t ++ [Invoked message model]) |}.

(** The invocations of the runner a trace records, oldest first. *)
Definition invocations (t : list event) : list (str * str) :=
  flat_map (fun ev =>
              match ev with
              | Invoked message model => [(message, model)]
              | _ => []
              end) t.

Definition is_user (msg : ChatMessage) : bool := str_eqb (role msg) (lit "user").

(** The HTTP status a handler's outcome is served with: 200 for a
    returned body, the code of an [HTTPException], and the server's 500
    for anything else that leaves the handler. *)
Definition status_of {A} (r : result A) : Z :=
  match r with
  | Return _ => 200
  | Raise (HTTPException status_code _) => status_code
  | _ => 500
  end.

(** Apply [g] to the last element of a list. *)
Fixpoint map_last {A} (g : A -> A) (ls : list A) : list A :=
  match ls with
  | [] => []
  | [l] => [g l]
  | l :: rest => l :: map_last g rest
  end.

(** A pattern both of whose ends are solid (not whitespace): it neither
    starts nor ends inside a run of spaces. *)
Definition solid_ends (pat : str) : bool :=
  match pat with
  | [] => false
  | p :: _ => negb (isspace p) && negb (isspace (last pat 0%N))
  end.

(** The value of a float in units of [2^-52]; an integer for every
    float whose exponent is at least [-52]. *)
Definition units (x : Float64.float) : Z :=
  (Float64.mant x * 2 ^ (Float64.expo x + 52))%Z.

(** [n * 1.3] for an [int] [n], as [estimate_tokens] computes it from a
    word count. *)
Definition estimate (words : Z) : Float64.float :=
  Float64.mul (Float64.of_int words) Float64.lit_1_3.

(** The same two operations in the binary64 instance of the standard
    library's IEEE 754 specification, to compare [Float64] with. *)
Definition to_spec (x : Float64.float) : spec_float :=
  binary_normalize 53 1024 (Float64.mant x) (Float64.expo x) false.

Definition spec_estimate (words : Z) : spec_float :=
  SFmul 53 1024 (binary_normalize 53 1024 words 0 false)
        (S754_finite false 5854679515581645 (-52)).

Definition agrees_with_spec (a b : Z) : bool :=
  SFeqb (to_spec (estimate a)) (spec_estimate a)
  && SFeqb (to_spec (Float64.add (estimate a) (estimate b)))
                   (SFadd 53 1024 (spec_estimate a) (spec_estimate b)).

Definition count_words (text : str) : Z := Z.of_nat (List.length (split_ws text)).

(** Sample inputs: a world whose every child behaves in one given way,
    a request with the untouched fields at their defaults, a message. *)
Definition world_where (outcome : popen_outcome) : World :=
  {| environ := [(lit "HOME", lit "/home/api")];
     expanduser_home := lit "/home/api";
     spawn := fun _ _ _ => outcome;
     uuid4_hex := lit "0f8fad5bd9cb469fa16570867728950e";
     time_time := Float64.mk 1700000000 0 |}.

Definition request_with (model : str) (messages : list ChatMessage)
    (n : option Z) : ChatCompletionRequest :=
  {| model := model;
     messages := messages;
     max_tokens := None;
     temperature := Some (Float64.mk 1 0);
     top_p := Some (Float64.mk 1 0);
     n := n;
     stream := Some false;
     stop := None;
     presence_penalty := Some (Float64.mk 0 0);
     frequency_penalty := Some (Float64.mk 0 0);
     logit_bias := None;
     user := None |}.

Definition says (role content : str) : ChatMessage :=
  {| role := role; content := content; name := None |}.

(** The body a successful completion is answered with. *)
Definition completion_body (w : World) (request : ChatCompletionRequest)
    (user_message response : str) : ChatCompletionResponse :=
  {| id := lit "chatcmpl-" ++ uuid4_hex w;
     object := lit "chat.completion";
     created := Float64.trunc (time_time w);
     response_model := model request;
     choices :=
       [ {| index := 0;
            message := says (lit "assistant") response;
            finish_reason := lit "stop" |} ];
     usage :=
       {| prompt_tokens := Float64.trunc (estimate_tokens user_message);
          completion_tokens := Float64.trunc (estimate_tokens response);
          total_tokens :=
            Float64.trunc (Float64.add (estimate_tokens user_message)
                                       (estimate_tokens response)) |} |}.

(** The exception outside [Exception], if any, that interrupts the
    start of the child or the wait for it. *)
Definition interrupted (w : World) (message model : str) : option base_exn :=
  match spawn w (command_line model message) (child_env w) (expanduser_home w) with
  | PopenAborts b => Some b
  | Process child =>
      match child 300%Z with
      | CommunicateAborts b => Some b
      | _ => None
      end
  | PopenRaises _ => None
  end.

End Reference.

(* ================================================================== *)
(** * Further vocabulary *)
(* ================================================================== *)

Module Coverage.
Import Py Effects Main.

(** The identifiers the command-line tool is given. *)
Definition canonical_ids : list str :=
  [ lit "claude-sonnet-4-20250514";
    lit "claude-opus-4-20250514";
    lit "claude-opus-4-1-20250805";
    lit "claude-3-7-sonnet-20250219";
    lit "claude-3-5-haiku-20241022" ].

(** The four variables [run_claude_command] sets on the child. *)
Definition overridden : list str :=
  [ lit "NODE_ENV"; lit "NODE_OPTIONS";
    lit "CLAUDE_DISABLE_TELEMETRY"; lit "CLAUDE_DISABLE_ANALYTICS" ].

(** How the child started for a prompt ends, read off the world: its
    stdout when it exits with code 0 within the timeout, and whether
    waiting for it times out. *)
Definition exits_zero (w : World) (message model : str) : option str :=
  match spawn w (command_line model message) (child_env w) (expanduser_home w) with
  | Process child =>
      match child 300%Z with
      | Communicated stdout _ returncode =>
          if (returncode =? 0)%Z then Some stdout else None
      | _ => None
      end
  | _ => None
  end.

Definition wait_times_out (w : World) (message model : str) : bool :=
  match spawn w (command_line model message) (child_env w) (expanduser_home w) with
  | Process child =>
      match child 300%Z with
      | CommunicateRaises (TimeoutExpired _) => true
      | _ => false
      end
  | _ => false
  end.


(** The events of one call of the runner. *)
Definition runner_events (w : World) (message model : str) : list event :=
  Popen (command_line model message) (child_env w) (expanduser_home w)
  :: (if wait_times_out w message model then [Kill] else []).

(** The command line of the health probe, spelled out. *)
Definition probe_command : str :=
  lit "npx claude --model claude-sonnet-4-20250514 --dangerously-skip-permissions "
  ++ [dquote] ++ lit "Hi" ++ [dquote].

(** The prompt a request leads to: what the reverse scan of the handler
    leaves in [user_message]. *)
Definition prompt_of (request : ChatCompletionRequest) : str :=
  last_user_loop (rev (messages request)) [].

Definition healthy_body : dict str :=
  [ (lit "status", lit "healthy"); (lit "claude_code", lit "available") ].

Definition degraded_body : dict str :=
  [ (lit "status", lit "degraded"); (lit "claude_code", lit "unavailable") ].

(** A text is tidy when it is empty or both its ends are solid: these are
    the texts [strip] leaves unchanged. *)
Definition tidy (s : str) : Prop :=
  s = [] \/ (isspace (hd 0%N s) = false /\ isspace (last s 0%N) = false).

(** What a line the extractor keeps looks like once trimmed. *)
Definition kept_line (l : str) : Prop :=
  l <> [] /\ tidy l /\ Reference.keeps l = true /\ ~ In nl l.

End Coverage.

(* ================================================================== *)
(** * Facts about the string primitives *)
(* ================================================================== *)

Module PyFacts.
Import Py Reference.

Lemma str_eqb_refl (a : str) : str_eqb a a = true.
Proof.
  induction a as [|x a IH]; simpl; [reflexivity|].
  now rewrite N.eqb_refl, IH.
Qed.

Lemma str_eqb_eq (a b : str) : str_eqb a b = true <-> a = b.
Proof.
  split.
  - revert b; induction a as [|x a IH]; intros [|y b]; simpl; try discriminate; auto.
    intros H. apply andb_prop in H as [Hx Hab].
    apply N.eqb_eq in Hx. apply IH in Hab. now subst.
  - intros ->. apply str_eqb_refl.
Qed.

Lemma str_eqb_neq (a b : str) : a <> b -> str_eqb a b = false.
Proof.
  intros H. destruct (str_eqb a b) eqn:E; [|reflexivity].
  apply str_eqb_eq in E. contradiction.
Qed.

Lemma truthy_false (s : str) : truthy s = false <-> s = [].
Proof. destruct s; simpl; split; congruence. Qed.

Lemma split_on_nonempty (sep : char) (s : str) : split_on sep s <> [].
Proof.
  induction s as [|c s IH]; simpl; [discriminate|].
  destruct (N.eqb c sep); [discriminate|].
  destruct (split_on sep s); [contradiction|discriminate].
Qed.

Lemma map_last_cons {A} (g : A -> A) (l : A) (ls : list A) :
  ls <> [] -> map_last g (l :: ls) = l :: map_last g ls.
Proof. destruct ls; [contradiction|reflexivity]. Qed.

(** Splitting a text that grew by one character at its end. *)
Lemma split_on_snoc (sep c : char) (s : str) :
  split_on sep (s ++ [c]) =
  if N.eqb c sep then split_on sep s ++ [[]]
  else map_last (fun l => l ++ [c]) (split_on sep s).
Proof.
  induction s as [|x s IH]; simpl.
  - destruct (N.eqb c sep); reflexivity.
  - rewrite IH. pose proof (split_on_nonempty sep s) as Hne.
    destruct (N.eqb x sep).
    + destruct (N.eqb c sep); [reflexivity|].
      now rewrite map_last_cons.
    + destruct (split_on sep s) as [|l ls]; [contradiction|].
      destruct (N.eqb c sep); [reflexivity|].
      destruct ls; reflexivity.
Qed.

Lemma rstrip_snoc_space (s : str) (c : char) :
  isspace c = true -> rstrip (s ++ [c]) = rstrip s.
Proof.
  intros Hc. induction s as [|x s IH]; simpl.
  - now rewrite Hc.
  - now rewrite IH.
Qed.

Lemma rstrip_snoc_solid (s : str) (c : char) :
  isspace c = false -> rstrip (s ++ [c]) = s ++ [c].
Proof.
  intros Hc. induction s as [|x s IH]; simpl.
  - now rewrite Hc.
  - rewrite IH. destruct (s ++ [c]) eqn:E; [|reflexivity].
    destruct s; discriminate.
Qed.

Lemma strip_cons_space (s : str) (c : char) :
  isspace c = true -> strip (c :: s) = strip s.
Proof. intros Hc. unfold strip. simpl. now rewrite Hc. Qed.

Lemma strip_snoc_space (s : str) (c : char) :
  isspace c = true -> strip (s ++ [c]) = strip s.
Proof.
  intros Hc. unfold strip. induction s as [|x s IH]; simpl.
  - now rewrite Hc.
  - destruct (isspace x); [exact IH|].
    change (x :: s ++ [c]) with ((x :: s) ++ [c]).
    now apply rstrip_snoc_space.
Qed.

Lemma startswith_at_space (pat s : str) (c : char) :
  solid_ends pat = true -> isspace c = true -> startswith pat (c :: s) = false.
Proof.
  intros Hp Hc. destruct pat as [|p pat]; [discriminate|].
  simpl in *. apply andb_prop in Hp as [Hp _].
  destruct (N.eqb p c) eqn:E; [|reflexivity].
  apply N.eqb_eq in E. subst. now rewrite Hc in Hp.
Qed.

Lemma startswith_snoc_space (pat s : str) (c d : char) :
  isspace (last pat d) = false -> pat <> [] -> isspace c = true ->
  startswith pat (s ++ [c]) = startswith pat s.
Proof.
  intros Hl Hne Hc. revert s.
  induction pat as [|p pat IH]; intros s; [contradiction|].
  destruct pat as [|p' pat].
  - simpl in Hl. destruct s as [|x s]; simpl.
    + destruct (N.eqb p c) eqn:E; [|reflexivity].
      apply N.eqb_eq in E. subst. congruence.
    + reflexivity.
  - destruct s as [|x s].
    + simpl. now rewrite andb_false_r.
    + change (startswith (p :: p' :: pat) ((x :: s) ++ [c]))
        with (N.eqb p x && startswith (p' :: pat) (s ++ [c])).
      rewrite IH; [reflexivity| exact Hl | discriminate].
Qed.

Lemma contains_cons_space (pat s : str) (c : char) :
  solid_ends pat = true -> isspace c = true ->
  contains pat (c :: s) = contains pat s.
Proof.
  intros Hp Hc. simpl contains at 1.
  now rewrite startswith_at_space.
Qed.

Lemma contains_snoc_space (pat s : str) (c : char) :
  solid_ends pat = true -> isspace c = true ->
  contains pat (s ++ [c]) = contains pat s.
Proof.
  intros Hp Hc.
  assert (Hl : isspace (last pat 0%N) = false /\ pat <> []).
  { destruct pat as [|p pat]; [discriminate|]. split; [|discriminate].
    unfold solid_ends in Hp. apply andb_prop in Hp as [_ Hp].
    now apply negb_true_iff in Hp. }
  destruct Hl as [Hl Hne].
  induction s as [|x s IH].
  - pose proof (@startswith_snoc_space pat [] c 0%N Hl Hne Hc) as H0.
    simpl in H0 |- *. rewrite H0.
    now destruct (startswith pat []).
  - change ((x :: s) ++ [c]) with (x :: (s ++ [c])).
    simpl contains. rewrite IH.
    change (x :: s ++ [c]) with ((x :: s) ++ [c]).
    now rewrite (@startswith_snoc_space pat (x :: s) c 0%N Hl Hne Hc).
Qed.

Lemma existsb_agree {A} (f g : A -> bool) (l : list A) :
  (forall x, In x l -> f x = g x) -> existsb f l = existsb g l.
Proof.
  induction l as [|x l IH]; intros H; simpl; [reflexivity|].
  rewrite H by now left. rewrite IH; [reflexivity|].
  intros y Hy. apply H. now right.
Qed.

End PyFacts.

(* ================================================================== *)
(** * The response extractor *)
(* ================================================================== *)

Module ExtractorFacts.
Import Py Main Reference PyFacts.

Lemma skip_patterns_solid :
  forall pat, In pat skip_patterns -> solid_ends pat = true.
Proof.
  apply forallb_forall. vm_compute. reflexivity.
Qed.

Lemma noisy_cons_space (line : str) (c : char) :
  isspace c = true -> noisy (c :: line) = noisy line.
Proof.
  intros Hc. unfold noisy. apply existsb_agree.
  intros pat Hpat. apply contains_cons_space; auto.
  now apply skip_patterns_solid.
Qed.

Lemma noisy_snoc_space (line : str) (c : char) :
  isspace c = true -> noisy (line ++ [c]) = noisy line.
Proof.
  intros Hc. unfold noisy. apply existsb_agree.
  intros pat Hpat. apply contains_snoc_space; auto.
  now apply skip_patterns_solid.
Qed.

Lemma keeps_cons_space (line : str) (c : char) :
  isspace c = true -> keeps (c :: line) = keeps line.
Proof.
  intros Hc. unfold keeps, blank.
  now rewrite strip_cons_space, noisy_cons_space.
Qed.

Lemma keeps_snoc_space (line : str) (c : char) :
  isspace c = true -> keeps (line ++ [c]) = keeps line.
Proof.
  intros Hc. unfold keeps, blank.
  now rewrite strip_snoc_space, noisy_snoc_space.
Qed.

Lemma cleaned_app (a b : list str) : cleaned (a ++ b) = cleaned a ++ cleaned b.
Proof. unfold cleaned. now rewrite filter_app, map_app. Qed.

Lemma cleaned_cons (l : str) (ls : list str) :
  cleaned (l :: ls) = (if keeps l then [strip l] else []) ++ cleaned ls.
Proof. unfold cleaned. simpl. now destruct (keeps l). Qed.

Lemma cleaned_map_last (g : str -> str) (ls : list str) :
  (forall l, keeps (g l) = keeps l) ->
  (forall l, strip (g l) = strip l) ->
  cleaned (map_last g ls) = cleaned ls.
Proof.
  intros Hk Hs. induction ls as [|l ls IH]; [reflexivity|].
  destruct ls as [|l' ls].
  - simpl map_last. rewrite !cleaned_cons. now rewrite Hk, Hs.
  - change (map_last g (l :: l' :: ls)) with (l :: map_last g (l' :: ls)).
    rewrite (cleaned_cons l (map_last g (l' :: ls))).
    rewrite (cleaned_cons l (l' :: ls)). now rewrite IH.
Qed.

(** The loop of the extractor accumulates the cleaned lines. *)
Lemma extract_loop (lines acc : list str) :
  fold_left extract_step lines acc = acc ++ cleaned lines.
Proof.
  revert acc. induction lines as [|l ls IH]; intros acc; simpl.
  - now rewrite app_nil_r.
  - rewrite IH, cleaned_cons. unfold extract_step, keeps.
    fold (blank l). fold (noisy l).
    destruct (blank l); simpl; [reflexivity|].
    destruct (noisy l); simpl; [reflexivity|].
    now rewrite <- app_assoc.
Qed.

(** A space added at either end of a text changes no cleaned line. *)
Lemma cleaned_split_snoc_space (s : str) (c : char) :
  isspace c = true ->
  cleaned (split_on nl (s ++ [c])) = cleaned (split_on nl s).
Proof.
  intros Hc. rewrite split_on_snoc.
  destruct (N.eqb c nl).
  - rewrite cleaned_app. change (cleaned [[]]) with (@nil str).
    now rewrite app_nil_r.
  - apply cleaned_map_last; intros l.
    + now apply keeps_snoc_space.
    + now apply strip_snoc_space.
Qed.

Lemma cleaned_split_cons_space (s : str) (c : char) :
  isspace c = true ->
  cleaned (split_on nl (c :: s)) = cleaned (split_on nl s).
Proof.
  intros Hc. simpl split_on.
  destruct (N.eqb c nl).
  - now rewrite cleaned_cons.
  - pose proof (split_on_nonempty nl s) as Hne.
    destruct (split_on nl s) as [|l ls]; [contradiction|].
    rewrite !cleaned_cons.
    now rewrite keeps_cons_space, strip_cons_space.
Qed.

Lemma cleaned_split_lstrip (s : str) :
  cleaned (split_on nl (lstrip s)) = cleaned (split_on nl s).
Proof.
  induction s as [|c s IH]; [reflexivity|].
  simpl lstrip. destruct (isspace c) eqn:Hc; [|reflexivity].
  rewrite IH. symmetry. now apply cleaned_split_cons_space.
Qed.

Lemma cleaned_split_rstrip (s : str) :
  cleaned (split_on nl (rstrip s)) = cleaned (split_on nl s).
Proof.
  induction s as [|c s IH] using rev_ind; [reflexivity|].
  destruct (isspace c) eqn:Hc.
  - rewrite rstrip_snoc_space by assumption.
    rewrite IH. symmetry. now apply cleaned_split_snoc_space.
  - now rewrite rstrip_snoc_solid.
Qed.

(** Trimming the whole text first, as the code does, selects the same
    lines as reading the raw text line by line. *)
Lemma cleaned_split_strip (s : str) :
  cleaned (split_on nl (strip s)) = cleaned (split_on nl s).
Proof.
  unfold strip. now rewrite cleaned_split_rstrip, cleaned_split_lstrip.
Qed.

Lemma extract_unfold (output : str) :
  extract_claude_response output =
  let text := join [nl] (cleaned (split_on nl output)) in
  if str_eqb text [] || (len text <? 10)%Z then strip output else text.
Proof.
  unfold extract_claude_response.
  rewrite extract_loop, cleaned_split_strip. simpl app.
  cbv zeta. now destruct (join [nl] (cleaned (split_on nl output))).
Qed.

Lemma cleaned_all_noisy (lines : list str) :
  Forall (fun line => noisy line || blank line = true) lines ->
  cleaned lines = [].
Proof.
  induction 1 as [|l ls Hl _ IH]; [reflexivity|].
  rewrite cleaned_cons, IH. unfold keeps.
  destruct (noisy l), (blank l); try discriminate; reflexivity.
Qed.

End ExtractorFacts.

(* ================================================================== *)
(** * Rounding and the token estimate *)
(* ================================================================== *)

Module Float64Facts.
Import Float64 Reference.
Local Open Scope Z_scope.

Lemma rne_bounds (m s : Z) :
  0 <= m -> 0 < s ->
  m - m mod 2 ^ s <= rne m s * 2 ^ s /\ 2 * (rne m s * 2 ^ s) <= 2 * m + 2 ^ s.
Proof.
  intros Hm Hs.
  assert (Hp : 2 ^ s = 2 * 2 ^ (s - 1)).
  { replace s with (Z.succ (s - 1)) at 1 by lia. apply Z.pow_succ_r. lia. }
  assert (Hh : 0 < 2 ^ (s - 1)) by (apply Z.pow_pos_nonneg; lia).
  pose proof (Z.div_mod m (2 ^ s) ltac:(lia)) as Hd.
  pose proof (Z.mod_pos_bound m (2 ^ s) ltac:(lia)) as Hr.
  unfold rne.
  set (q := m / 2 ^ s) in *. set (r := m mod 2 ^ s) in *.
  set (h := 2 ^ (s - 1)) in *. set (P := 2 ^ s) in *.
  destruct (r <? h) eqn:E1; [apply Z.ltb_lt in E1; nia|].
  apply Z.ltb_ge in E1.
  destruct (h <? r) eqn:E2; [apply Z.ltb_lt in E2; nia|].
  apply Z.ltb_ge in E2.
  destruct (Z.even q); nia.
Qed.

Lemma round_units (m e : Z) :
  0 <= m -> -52 <= e ->
  0 <= mant (round m e) /\ -52 <= expo (round m e) /\
  2 ^ 53 * units (round m e) <= (2 ^ 53 + 1) * (m * 2 ^ (e + 52)) /\
  forall K g, 0 <= g -> (2 ^ g | K) -> K <= m * 2 ^ (e + 52) ->
              m * 2 ^ (e + 52) < 2 ^ (g + 53) -> K <= units (round m e).
Proof.
  intros Hm He. unfold round, prec.
  rewrite Z.abs_eq by assumption.
  assert (HE : 0 < 2 ^ (e + 52)) by (apply Z.pow_pos_nonneg; lia).
  destruct (Z.log2 m + 1 - 53 <=? 0) eqn:Es.
  - unfold units; cbn [mant expo]. set (N := m * 2 ^ (e + 52)).
    assert (0 <= N) by (unfold N; nia).
    split; [lia|]. split; [lia|]. split; [|intros; lia].
    assert (0 < 2 ^ 53) by (apply Z.pow_pos_nonneg; lia). nia.
  - apply Z.leb_gt in Es.
    set (s := Z.log2 m + 1 - 53) in *.
    assert (Hmpos : 0 < m).
    { destruct (Z.eq_dec m 0) as [->|]; [simpl in s; lia|lia]. }
    pose proof (Z.log2_spec m Hmpos) as [Hlo Hhi].
    assert (Hs52 : 2 ^ Z.log2 m = 2 ^ 52 * 2 ^ s).
    { rewrite <- Z.pow_add_r by lia. f_equal. lia. }
    pose proof (@rne_bounds m s Hm Es) as [Hr1 Hr2].
    assert (HP : 0 < 2 ^ s) by (apply Z.pow_pos_nonneg; lia).
    pose proof (Z.div_mod m (2 ^ s) ltac:(lia)) as Hd.
    pose proof (Z.mod_pos_bound m (2 ^ s) ltac:(lia)) as Hrb.
    assert (Hrn : 0 <= rne m s).
    { assert (0 <= m / 2 ^ s) by (apply Z.div_pos; lia). nia. }
    unfold units; cbn [mant expo].
    replace (e + s + 52) with (s + (e + 52)) by lia.
    rewrite Z.pow_add_r by lia.
    set (R := rne m s) in *. set (P := 2 ^ s) in *. set (E := 2 ^ (e + 52)) in *.
    repeat split; try lia.
    + nia.
    + intros K g Hg [k Hk] HK Hlt.
      assert (Ht : s + (e + 52) <= g).
      { assert (2 ^ (s + (e + 52) + 52) < 2 ^ (g + 53)).
        { replace (s + (e + 52) + 52) with (52 + s + (e + 52)) by lia.
          rewrite !Z.pow_add_r by lia. fold P E. nia. }
        apply Z.pow_lt_mono_r_iff in H; lia. }
      assert (Hg2 : 2 ^ g = 2 ^ (g - (s + (e + 52))) * (P * E)).
      { unfold P, E. rewrite <- !Z.pow_add_r by lia. f_equal. lia. }
      assert (0 < 2 ^ (g - (s + (e + 52)))) by (apply Z.pow_pos_nonneg; lia).
      set (c := 2 ^ (g - (s + (e + 52)))) in *.
      set (q := m / P) in *. set (r := m mod P) in *.
      assert (HrE : r * E < P * E) by nia.
      assert (HmE : m * E = q * (P * E) + r * E) by nia.
      assert (HK' : K = k * c * (P * E)) by (rewrite Hk, Hg2; ring).
      assert (HRE : q * (P * E) <= R * (P * E)).
      { unfold R. fold q in Hr1. nia. }
      set (T := P * E) in *. assert (0 < T) by (unfold T; nia).
      assert (k * c <= q).
      { destruct (Z_le_gt_dec (k * c) q); [assumption|]. exfalso.
        assert ((q + 1) * T <= k * c * T) by nia. nia. }
      assert (k * c * T <= q * T) by nia.
      replace (R * (P * E)) with (R * T) by reflexivity. lia.
Qed.

Lemma trunc_units (x : float) :
  0 <= mant x -> -52 <= expo x -> trunc x = units x / 2 ^ 52.
Proof.
  intros Hm He. unfold trunc, units.
  destruct (0 <=? expo x) eqn:E.
  - apply Z.leb_le in E. rewrite Z.pow_add_r by lia.
    rewrite Z.mul_assoc. rewrite Z.div_mul; [reflexivity|].
    apply Z.pow_nonzero; lia.
  - apply Z.leb_gt in E.
    assert (0 < 2 ^ (- expo x)) by (apply Z.pow_pos_nonneg; lia).
    assert (0 < 2 ^ (expo x + 52)) by (apply Z.pow_pos_nonneg; lia).
    rewrite Z.quot_div_nonneg by lia.
    replace (2 ^ 52) with (2 ^ (- expo x) * 2 ^ (expo x + 52)).
    + rewrite Z.div_mul_cancel_r by lia. reflexivity.
    + rewrite <- Z.pow_add_r by lia. f_equal. lia.
Qed.

Lemma trunc_between (x : float) (q : Z) :
  0 <= mant x -> -52 <= expo x ->
  q * 2 ^ 52 <= units x < (q + 1) * 2 ^ 52 -> trunc x = q.
Proof.
  intros Hm He H. rewrite trunc_units by assumption.
  symmetry. apply Z.div_unique with (r := units x - q * 2 ^ 52); lia.
Qed.

Lemma estimate_units (a : Z) :
  0 <= a < 2 ^ 40 ->
  0 <= mant (estimate a) /\ -52 <= expo (estimate a) /\
  exists q, 0 <= q < 2 ^ 41 /\
            q * 2 ^ 52 <= units (estimate a) /\
            10 * units (estimate a) < 10 * (q * 2 ^ 52) + 19 * 2 ^ 51.
Proof.
  intros Ha. unfold estimate, of_int.
  assert (Hr : round a 0 = mk a 0).
  { unfold round, prec. rewrite Z.abs_eq by lia.
    assert (Z.log2 a < 40).
    { destruct (Z.eq_dec a 0) as [->|]; [simpl; lia|].
      apply Z.log2_lt_pow2; lia. }
    destruct (Z.log2 a + 1 - 53 <=? 0) eqn:E; [reflexivity|].
    apply Z.leb_gt in E. lia. }
  rewrite Hr. unfold mul, lit_1_3. cbn [mant expo].
  replace (0 + -52) with (-52) by lia.
  set (M := 5854679515581645).
  assert (HaM : 0 <= a * M) by (unfold M; lia).
  destruct (@round_units (a * M) (-52) HaM ltac:(lia)) as (H1 & H2 & H3 & H4).
  replace (-52 + 52) with 0 in * by lia. rewrite Z.pow_0_r, Z.mul_1_r in *.
  split; [exact H1|]. split; [exact H2|].
  exists (13 * a / 10).
  pose proof (Z.div_mod (13 * a) 10 ltac:(lia)) as Hd.
  pose proof (Z.mod_pos_bound (13 * a) 10 ltac:(lia)) as Hb.
  set (q := 13 * a / 10) in *. set (r := (13 * a) mod 10) in *.
  set (V := units (round (a * M) (-52))) in *.
  assert (HM : 10 * M = 13 * 2 ^ 52 + 2) by (unfold M; reflexivity).
  change (2 ^ 40) with 1099511627776 in *.
  change (2 ^ 41) with 2199023255552 in *.
  change (2 ^ 51) with 2251799813685248 in *.
  change (2 ^ 52) with 4503599627370496 in *.
  change (2 ^ 53) with 9007199254740992 in *.
  split; [lia|]. split.
  - apply (H4 (q * 4503599627370496) 52).
    + lia.
    + exists q. reflexivity.
    + lia.
    + change (2 ^ (52 + 53)) with 40564819207303340847894502572032. unfold M. lia.
  - unfold M in *. lia.
Qed.

Lemma add_exact (x y : float) :
  -52 <= expo x -> -52 <= expo y ->
  let e := Z.min (expo x) (expo y) in
  (mant x * 2 ^ (expo x - e) + mant y * 2 ^ (expo y - e)) * 2 ^ (e + 52)
  = units x + units y.
Proof.
  intros Hx Hy e. unfold units.
  rewrite Z.mul_add_distr_r, <- !Z.mul_assoc, <- !Z.pow_add_r by lia.
  f_equal; f_equal; f_equal; lia.
Qed.

Lemma usage_bounds (a b : Z) :
  0 <= a < 2 ^ 40 -> 0 <= b < 2 ^ 40 ->
  trunc (estimate a) + trunc (estimate b)
    <= trunc (add (estimate a) (estimate b))
    <= trunc (estimate a) + trunc (estimate b) + 1.
Proof.
  intros Ha Hb.
  destruct (@estimate_units a Ha) as (Hxm & Hxe & qx & Hqx & Hx1 & Hx2).
  destruct (@estimate_units b Hb) as (Hym & Hye & qy & Hqy & Hy1 & Hy2).
  set (X := estimate a) in *. set (Y := estimate b) in *.
  pose proof (@add_exact X Y Hxe Hye) as Hsum. cbv zeta in Hsum.
  unfold add.
  set (e := Z.min (expo X) (expo Y)) in *.
  set (m := mant X * 2 ^ (expo X - e) + mant Y * 2 ^ (expo Y - e)) in *.
  assert (Hm : 0 <= m).
  { unfold m.
    assert (0 < 2 ^ (expo X - e)) by (apply Z.pow_pos_nonneg; lia).
    assert (0 < 2 ^ (expo Y - e)) by (apply Z.pow_pos_nonneg; lia).
    nia. }
  destruct (@round_units m e Hm ltac:(lia)) as (H1 & H2 & H3 & H4).
  rewrite Hsum in *.
  set (S := round m e) in *.
  change (2 ^ 40) with 1099511627776 in *.
  change (2 ^ 41) with 2199023255552 in *.
  change (2 ^ 51) with 2251799813685248 in *.
  change (2 ^ 52) with 4503599627370496 in *.
  change (2 ^ 53) with 9007199254740992 in *.
  assert (Hlow : (qx + qy) * 4503599627370496 <= units S).
  { apply (H4 _ 52).
    - lia.
    - exists (qx + qy). reflexivity.
    - lia.
    - change (2 ^ (52 + 53)) with 40564819207303340847894502572032. lia. }
  assert (Hx : trunc X = qx) by (apply trunc_between; try assumption;
    change (2 ^ 52) with 4503599627370496; lia).
  assert (Hy : trunc Y = qy) by (apply trunc_between; try assumption;
    change (2 ^ 52) with 4503599627370496; lia).
  rewrite Hx, Hy.
  rewrite (@trunc_units S) by assumption.
  change (2 ^ 52) with 4503599627370496.
  split.
  - apply Z.div_le_lower_bound; lia.
  - assert (units S / 4503599627370496 < qx + qy + 2); [|lia].
    apply Z.div_lt_upper_bound; lia.
Qed.

(** On every pair of word counts below 48 the model computes the floats
    the standard library's binary64 specification computes. *)
Lemma agrees_with_spec_below_48 :
  forallb (fun a => forallb (fun b => agrees_with_spec (Z.of_nat a) (Z.of_nat b))
                            (seq 0 48)) (seq 0 48) = true.
Proof. vm_compute. reflexivity. Qed.

End Float64Facts.

(* ================================================================== *)
(** * The handlers *)
(* ================================================================== *)

Module HandlerFacts.
Import Py Effects Main Reference PyFacts.

Lemma last_user_loop_found (before after : list ChatMessage) (m : ChatMessage)
    (u : str) :
  Forall (fun x => is_user x = false) before -> is_user m = true ->
  last_user_loop (before ++ m :: after) u = content m.
Proof.
  intros Hb Hm. induction Hb as [|x before Hx _ IH]; simpl.
  - unfold is_user in Hm. now rewrite Hm.
  - unfold is_user in Hx. now rewrite Hx.
Qed.

Lemma last_user_loop_none (msgs : list ChatMessage) (u : str) :
  Forall (fun x => is_user x = false) msgs -> last_user_loop msgs u = u.
Proof.
  induction 1 as [|x msgs Hx _ IH]; simpl; [reflexivity|].
  unfold is_user in Hx. now rewrite Hx.
Qed.

(** The reverse scan stops at the last user message of the request. *)
Lemma scan_finds_last_user (msgs before after : list ChatMessage)
    (m : ChatMessage) :
  msgs = before ++ m :: after -> is_user m = true ->
  Forall (fun x => is_user x = false) after ->
  last_user_loop (rev msgs) [] = content m.
Proof.
  intros -> Hm Ha. rewrite rev_app_distr. simpl rev. rewrite <- app_assoc.
  apply last_user_loop_found; [|assumption].
  now apply Forall_rev.
Qed.

Lemma invocations_app (t u : list event) :
  invocations (t ++ u) = invocations t ++ invocations u.
Proof. unfold invocations. apply flat_map_app. Qed.

Lemma dict_get_absent {V} (d : dict V) (k : str) (default : V) :
  ~ In k (map fst d) -> dict_get d k default = default.
Proof.
  induction d as [|[k' v] d IH]; simpl; intros H; [reflexivity|].
  rewrite str_eqb_neq by (intros ->; apply H; now left).
  apply IH. intros Hin. apply H. now right.
Qed.

(** What it takes for the completion handler to return a body. *)
Lemma completion_returns (iface : ClaudeCodeInterface) (w : World)
    (request : ChatCompletionRequest) (t t' : list event)
    (resp : ChatCompletionResponse) :
  create_chat_completion iface w request t = (Return resp, t') ->
  exists response,
    let user_message := last_user_loop (rev (messages request)) [] in
    user_message <> [] /\
    run_claude_command iface user_message (model request) t
      = (Return (true, response), t') /\
    resp = completion_body w request user_message response.
Proof.
  unfold create_chat_completion, try_except, bind, raise, ret. cbv zeta.
  destruct (last_user_loop (rev (messages request)) []) as [|c um] eqn:Eum;
    cbn [truthy negb]; cbv beta; [discriminate|].
  destruct (run_claude_command iface (c :: um) (model request) t)
    as [[[[|] response]|e|b] t1] eqn:Erun; cbn [negb].
  - intros H. inversion H; subst. exists response.
    split; [discriminate|]. split; reflexivity.
  - discriminate.
  - destruct e; discriminate.
  - discriminate.
Qed.

(** ... and that this is all it takes. *)
Lemma completion_of_success (iface : ClaudeCodeInterface) (w : World)
    (request : ChatCompletionRequest) (t t' : list event) (response : str) :
  let user_message := last_user_loop (rev (messages request)) [] in
  user_message <> [] ->
  run_claude_command iface user_message (model request) t
    = (Return (true, response), t') ->
  create_chat_completion iface w request t
    = (Return (completion_body w request user_message response), t').
Proof.
  cbv zeta. intros Hne Hrun.
  unfold create_chat_completion, try_except, bind, raise, ret. cbv zeta.
  destruct (last_user_loop (rev (messages request)) []) as [|c um] eqn:Eum;
    [contradiction|].
  cbn [truthy negb]; cbv beta. rewrite Hrun. reflexivity.
Qed.

(** The runner, evaluated: one case per behaviour of the child. *)
Lemma run_claude_command_eval (w : World) (self_timeout : Z)
    (message model : str) (t : list event) :
  run_claude_command_impl w self_timeout message model t =
  let command := command_line model message in
  let t1 := t ++ [Popen command (child_env w) (expanduser_home w)] in
  match spawn w command (child_env w) (expanduser_home w) with
  | PopenRaises e => (Return (false, exn_str e), t1)
  | PopenAborts b => (Abort b, t1)
  | Process child =>
      match child self_timeout with
      | Communicated stdout stderr return_code =>
          if (return_code =? 0)%Z
          then (Return (true, extract_claude_response stdout), t1)
          else (Return (false,
                        if truthy stderr then strip stderr
                        else lit "Exit code " ++ str_of_int return_code), t1)
      | CommunicateRaises (TimeoutExpired _) =>
          (Return (false, lit "Command timed out"), t1 ++ [Kill])
      | CommunicateRaises e => (Return (false, exn_str e), t1)
      | CommunicateAborts b => (Abort b, t1)
      end
  end.
Proof.
  cbv beta iota zeta delta
    [run_claude_command_impl try_except bind subprocess_Popen communicate
     kill emit ret raise].
  destruct (spawn w (command_line model message) (child_env w)
              (expanduser_home w)) as [e|b|child]; [reflexivity|reflexivity|].
  destruct (child self_timeout) as [stdout stderr rc|e|b].
  - destruct (rc =? 0)%Z; reflexivity.
  - destruct e; reflexivity.
  - reflexivity.
Qed.

(** The worked scenario of the specification: [2+2?] sent to
    [claude-haiku-3.5], the runner answering [4]. *)
Example haiku_scenario :
  let request :=
    request_with (lit "claude-haiku-3.5") [ says (lit "user") (lit "2+2?") ] None in
  let w := world_where (PopenRaises (Exception [])) in
  match fst (create_chat_completion
               (double (fun _ _ => Return (true, lit "4"))) w request []) with
  | Return resp =>
      response_model resp = lit "claude-haiku-3.5" /\
      map (fun c => (content (message c), finish_reason c)) (choices resp)
        = [(lit "4", lit "stop")] /\
      prompt_tokens (usage resp) = 1%Z
  | _ => False
  end.
Proof. vm_compute. repeat split. Qed.

End HandlerFacts.

(* ================================================================== *)
(** * The properties of the specification *)
(* ================================================================== *)

Import Py Effects Main Reference.
Import PyFacts ExtractorFacts Float64Facts HandlerFacts.

(** ** Model names *)

(** C3.  The model table lookup is a total function of the requested
    name: each of the five short aliases resolves to its canonical id,
    each canonical id resolves to itself, and every name that is not a
    key of the table resolves to [claude-sonnet-4-20250514]. *)
Theorem model_name_resolves :
  claude_model (lit "claude-sonnet-4") = lit "claude-sonnet-4-20250514" /\
  claude_model (lit "claude-opus-4") = lit "claude-opus-4-20250514" /\
  claude_model (lit "claude-opus-4.1") = lit "claude-opus-4-1-20250805" /\
  claude_model (lit "claude-sonnet-3.7") = lit "claude-3-7-sonnet-20250219" /\
  claude_model (lit "claude-haiku-3.5") = lit "claude-3-5-haiku-20241022" /\
  (forall canonical,
     In canonical [ lit "claude-sonnet-4-20250514";
                    lit "claude-opus-4-20250514";
                    lit "claude-opus-4-1-20250805";
                    lit "claude-3-7-sonnet-20250219";
                    lit "claude-3-5-haiku-20241022" ] ->
     claude_model canonical = canonical) /\
  (forall requested,
     ~ In requested (map fst model_mapping) ->
     claude_model requested = lit "claude-sonnet-4-20250514").
Proof.
  repeat split; try (vm_compute; reflexivity).
  - intros canonical Hin. simpl in Hin.
    repeat (destruct Hin as [<-|Hin]; [vm_compute; reflexivity|]).
    contradiction.
  - intros requested Hout. unfold claude_model. now apply dict_get_absent.
Qed.

Lemma model_name_resolves_witness :
  claude_model (lit "claude-opus-4-20250514") = lit "claude-opus-4-20250514" /\
  claude_model (lit "gpt-4") = lit "claude-sonnet-4-20250514".
Proof.
  destruct model_name_resolves as (_ & _ & _ & _ & _ & Hcanon & Hother).
  split.
  - apply Hcanon. simpl. right. left. reflexivity.
  - apply Hother. vm_compute. intuition discriminate.
Defined.

(** ** The response extractor *)

(** C5.  On every raw text the extractor returns what the wording of the
    specification describes: the non-blank, noise-free lines of the raw
    text, trimmed and rejoined with newlines in their order, or the
    trimmed raw text when that result is empty or shorter than 10
    characters.  In particular a text all of whose lines are noise
    (blank lines, such as the one after a final newline, aside) comes
    back trimmed and otherwise whole. *)
Theorem extractor_follows_the_words :
  forall output,
    extract_claude_response output = extract_by_the_words output /\
    (Forall (fun line => noisy line || blank line = true)
            (split_on nl output) ->
     extract_claude_response output = strip output).
Proof.
  intros output. split.
  - apply extract_unfold.
  - intros Hall. rewrite extract_unfold.
    now rewrite (cleaned_all_noisy Hall).
Qed.

Lemma extractor_follows_the_words_witness :
  let output := lit "Loading project..." ++ [nl] ++ lit "Session 12 " ++ [nl] in
  Forall (fun line => noisy line || blank line = true)
         (split_on nl output) /\
  extract_claude_response output
    = lit "Loading project..." ++ [nl] ++ lit "Session 12".
Proof.
  cbv zeta.
  assert (H : Forall (fun line => noisy line || blank line = true)
                (split_on nl (lit "Loading project..." ++ [nl]
                              ++ lit "Session 12 " ++ [nl]))).
  2: { split; [exact H|].
       rewrite (proj2 (extractor_follows_the_words _) H).
       vm_compute. reflexivity. }
  vm_compute. repeat constructor.
Defined.

(** C6, as the code has it.  When the raw text has exactly one line that
    is neither blank nor noise, every other line being noise (or blank),
    and that line trimmed has at least 10 characters, the extractor
    returns that line, trimmed. *)
Theorem one_clean_line_is_returned :
  forall output before line after,
    split_on nl output = before ++ line :: after ->
    Forall (fun l => noisy l || blank l = true) before ->
    Forall (fun l => noisy l || blank l = true) after ->
    blank line = false ->
    noisy line = false ->
    (10 <= len (strip line))%Z ->
    extract_claude_response output = strip line.
Proof.
  intros output before line after Hsplit Hb Ha Hblank Hnoisy Hlen.
  rewrite extract_unfold, Hsplit. cbv zeta.
  rewrite cleaned_app, cleaned_cons.
  rewrite (cleaned_all_noisy Hb), (cleaned_all_noisy Ha).
  unfold keeps. rewrite Hblank, Hnoisy. simpl.
  revert Hlen. generalize (strip line). intros text Hlen.
  destruct text as [|c rest]; [unfold len in Hlen; simpl in Hlen; lia|].
  simpl str_eqb. rewrite orb_false_l.
  destruct (len (c :: rest) <? 10)%Z eqn:El; [|reflexivity].
  apply Z.ltb_lt in El. lia.
Qed.

Lemma one_clean_line_is_returned_witness :
  let output :=
    lit "Loading project" ++ [nl] ++ lit "  The answer is 4.  " ++ [nl]
    ++ lit "Conversation saved" ++ [nl] in
  extract_claude_response output = lit "The answer is 4.".
Proof.
  cbv zeta.
  rewrite (@one_clean_line_is_returned _
             [lit "Loading project"] (lit "  The answer is 4.  ")
             [lit "Conversation saved"; []]).
  - vm_compute. reflexivity.
  - vm_compute. reflexivity.
  - repeat constructor.
  - repeat constructor.
  - vm_compute. reflexivity.
  - vm_compute. reflexivity.
  - vm_compute. discriminate.
Defined.

(** C6 as stated fails on a short answer: one noise line and the clean
    line [4] come back together, because the fallback to the raw text
    takes over below 10 characters. *)
Lemma short_clean_line_is_not_returned :
  let output := lit "Loading project" ++ [nl] ++ lit "4" in
  split_on nl output = [lit "Loading project"] ++ lit "4" :: [] /\
  Forall (fun l => noisy l = true) [lit "Loading project"] /\
  blank (lit "4") = false /\
  noisy (lit "4") = false /\
  extract_claude_response output = output /\
  extract_claude_response output <> strip (lit "4").
Proof.
  cbv zeta. repeat split; try (vm_compute; reflexivity).
  - repeat constructor.
  - vm_compute. discriminate.
Qed.

(** ** The subprocess runner *)

(** Identify the child a clause speaks of with the one spawned. *)
Ltac runner_case :=
  match goal with
  | H : Process _ = Process _ |- _ => inversion H; subst; clear H
  end;
  repeat match goal with
  | H1 : ?c ?x = _, H2 : ?c ?x = _ |- _ => rewrite H1 in H2; inversion H2; subst; clear H2
  end.

(** C7, as the code has it.  [run_claude_command] never raises an
    exception of class [Exception]: unless the start of the child or the
    wait for it is interrupted by an exception outside that class
    ([KeyboardInterrupt], [SystemExit]), which passes through, it
    returns a pair.  After a nonzero exit the pair is a failure carrying
    the trimmed stderr text when stderr is non-empty and [Exit code N]
    otherwise; when the wait times out the child is killed and the
    failure carries [Command timed out]; an exception of class
    [Exception] raised while starting the child or while waiting for it
    becomes a failure carrying the exception's text. *)
Theorem runner_returns_unless_interrupted :
  forall w message model t,
    let command := command_line model message in
    let started := spawn w command (child_env w) (expanduser_home w) in
    (forall e t',
       run_claude_command (claude_interface w) message model t <> (Raise e, t')) /\
    match interrupted w message model with
    | Some b =>
        run_claude_command (claude_interface w) message model t
          = (Abort b, t ++ [Popen command (child_env w) (expanduser_home w)])
    | None =>
        exists success payload t',
          run_claude_command (claude_interface w) message model t
            = (Return (success, payload), t') /\
          (forall child stdout stderr returncode,
             started = Process child ->
             child 300%Z = Communicated stdout stderr returncode ->
             returncode <> 0%Z ->
             success = false /\
             payload = if truthy stderr then strip stderr
                       else lit "Exit code " ++ str_of_int returncode) /\
          (forall child text,
             started = Process child ->
             child 300%Z = CommunicateRaises (TimeoutExpired text) ->
             success = false /\
             payload = lit "Command timed out" /\
             t' = t ++ [Popen command (child_env w) (expanduser_home w); Kill]) /\
          (forall e,
             started = PopenRaises e ->
             success = false /\ payload = exn_str e) /\
          (forall child e,
             started = Process child ->
             child 300%Z = CommunicateRaises e ->
             (forall text, e <> TimeoutExpired text) ->
             success = false /\ payload = exn_str e)
    end.
Proof.
  intros w message model t. cbv zeta.
  unfold claude_interface, run_claude_command, interrupted.
  rewrite run_claude_command_eval. cbv zeta.
  destruct (spawn w (command_line model message) (child_env w)
              (expanduser_home w)) as [e|b|child] eqn:Es.
  - split; [discriminate|].
    do 3 eexists. split; [reflexivity|].
    repeat split; try discriminate; intros; congruence.
  - split; [discriminate|reflexivity].
  - destruct (child 300%Z) as [stdout stderr rc|e|b] eqn:Ec.
    + destruct (rc =? 0)%Z eqn:Erc.
      * apply Z.eqb_eq in Erc. split; [discriminate|].
        do 3 eexists. split; [reflexivity|].
        repeat split; try discriminate; intros; runner_case; congruence.
      * split; [discriminate|].
        do 3 eexists. split; [reflexivity|].
        repeat split; try discriminate; intros; runner_case; congruence.
    + destruct e as [code detail|text|text].
      * split; [discriminate|].
        do 3 eexists. split; [reflexivity|].
        repeat split; try discriminate; intros; runner_case; congruence.
      * split; [discriminate|].
        do 3 eexists. split; [reflexivity|].
        repeat split; try discriminate; intros; runner_case;
          try congruence; try (now rewrite <- app_assoc);
          exfalso;
          match goal with
          | H : forall other, TimeoutExpired _ <> TimeoutExpired other |- _ =>
              exact (H _ eq_refl)
          end.
      * split; [discriminate|].
        do 3 eexists. split; [reflexivity|].
        repeat split; try discriminate; intros; runner_case; congruence.
    + split; [discriminate|reflexivity].
Qed.

Lemma runner_returns_unless_interrupted_witness :
  let w := world_where
             (Process (fun _ => Communicated [] (lit " npm ERR! code E404 " ++ [nl]) 1)) in
  interrupted w (lit "Hi") (lit "claude-opus-4") = None /\
  exists t',
    run_claude_command (claude_interface w) (lit "Hi") (lit "claude-opus-4") []
      = (Return (false, lit "npm ERR! code E404"), t').
Proof.
  cbv zeta. split; [reflexivity|].
  pose proof (runner_returns_unless_interrupted
                (world_where
                   (Process (fun _ =>
                      Communicated [] (lit " npm ERR! code E404 " ++ [nl]) 1)))
                (lit "Hi") (lit "claude-opus-4") []) as H.
  cbv zeta in H. destruct H as [_ H].
  change (interrupted
            (world_where
               (Process (fun _ =>
                  Communicated [] (lit " npm ERR! code E404 " ++ [nl]) 1)))
            (lit "Hi") (lit "claude-opus-4"))
    with (@None base_exn) in H.
  destruct H as (success & payload & t' & Hrun & Hexit & _).
  destruct (Hexit _ _ _ _ eq_refl eq_refl ltac:(discriminate)) as [Hs Hp].
  exists t'. rewrite Hrun, Hs, Hp. reflexivity.
Defined.

(** C7 as stated fails in two places.  The failure after a nonzero exit
    carries the stderr text trimmed, not the stderr text: a child that
    writes [boom] and a newline to stderr and exits with code 1 yields
    the payload [boom].  And an exception outside [Exception] is not
    caught: a [KeyboardInterrupt] while the child is started leaves the
    runner as it is. *)
Lemma runner_trims_stderr_and_passes_interrupts :
  let stderr := lit "boom" ++ [nl] in
  let w := world_where (Process (fun _ => Communicated [] stderr 1)) in
  let interrupting := world_where (PopenAborts KeyboardInterrupt) in
  truthy stderr = true /\
  fst (run_claude_command (claude_interface w) (lit "Hi") default_model [])
    = Return (false, lit "boom") /\
  lit "boom" <> stderr /\
  fst (run_claude_command (claude_interface interrupting) (lit "Hi")
         default_model [])
    = Abort KeyboardInterrupt.
Proof.
  cbv zeta. repeat split; try (vm_compute; reflexivity).
  vm_compute. discriminate.
Qed.

(** ** The health probe *)


(** ** The completion handler *)

(** C1, as the code has it.  When the last user message of a request has
    a non-empty content, the runner is invoked once, with exactly that
    content as its prompt and the requested model, whatever the other
    messages are. *)
Theorem prompt_is_last_user_message :
  forall answer w request before m after t,
    messages request = before ++ m :: after ->
    is_user m = true ->
    Forall (fun x => is_user x = false) after ->
    content m <> [] ->
    invocations (snd (create_chat_completion (double answer) w request t))
      = invocations t ++ [(content m, model request)].
Proof.
  intros answer w request before m after t Hmsgs Hm Hafter Hne.
  pose proof (@scan_finds_last_user _ _ _ _ Hmsgs Hm Hafter) as Hscan.
  cbv beta iota zeta delta [create_chat_completion try_except bind raise ret].
  rewrite Hscan.
  destruct (content m) as [|c prompt]; [contradiction|].
  cbn [truthy negb double run_claude_command].
  destruct (answer (c :: prompt) (model request)) as [[[|] response]|e|b];
    cbn [negb snd]; try (now rewrite invocations_app).
  destruct e; cbn [snd]; now rewrite invocations_app.
Qed.

Lemma prompt_is_last_user_message_witness :
  let request :=
    request_with (lit "claude-haiku-3.5")
      [ says (lit "user") (lit "first question");
        says (lit "assistant") (lit "first answer");
        says (lit "user") (lit "2+2?");
        says (lit "system") (lit "be brief") ] (Some 1%Z) in
  invocations
    (snd (create_chat_completion (double (fun _ _ => Return (true, lit "4")))
            (world_where (PopenRaises (Exception []))) request []))
  = [(lit "2+2?", lit "claude-haiku-3.5")].
Proof.
  cbv zeta.
  rewrite (@prompt_is_last_user_message _ _ _
             [ says (lit "user") (lit "first question");
               says (lit "assistant") (lit "first answer") ]
             (says (lit "user") (lit "2+2?"))
             [ says (lit "system") (lit "be brief") ]).
  - reflexivity.
  - reflexivity.
  - vm_compute. reflexivity.
  - repeat constructor.
  - vm_compute. discriminate.
Defined.

(** C1 as stated fails when the last user message is empty: the request
    is answered with 400 and the runner is not invoked at all, even if
    an earlier user message has text. *)
Lemma empty_last_user_message_is_not_passed :
  let request :=
    request_with (lit "claude-sonnet-4")
      [ says (lit "user") (lit "hello"); says (lit "user") [] ] (Some 1%Z) in
  let w := world_where (PopenRaises (Exception [])) in
  let answer := fun _ _ => Return (true, lit "4") in
  is_user (says (lit "user") []) = true /\
  create_chat_completion (double answer) w request []
    = (Raise (HTTPException 400
                (lit "No user message found in the conversation")), []) /\
  invocations (snd (create_chat_completion (double answer) w request []))
    <> [(@nil char, lit "claude-sonnet-4")].
Proof.
  cbv zeta. repeat split; try (vm_compute; reflexivity).
  vm_compute. discriminate.
Qed.

(** C2.  A request without any user message is answered with the
    exception of status 400 and the detail [No user message found in the
    conversation], and the runner is not invoked: whatever the runner
    is, the trace is left as it was, and a recording double records
    nothing. *)
Theorem no_user_message_is_rejected :
  forall iface w request t,
    Forall (fun x => is_user x = false) (messages request) ->
    create_chat_completion iface w request t
      = (Raise (HTTPException 400
                  (lit "No user message found in the conversation")), t) /\
    status_of (fst (create_chat_completion iface w request t)) = 400%Z /\
    forall answer,
      invocations (snd (create_chat_completion (double answer) w request t))
        = invocations t.
Proof.
  intros iface w request t Hnone.
  assert (Hscan : last_user_loop (rev (messages request)) [] = []).
  { apply last_user_loop_none. now apply Forall_rev. }
  assert (Hall : forall i, create_chat_completion i w request t
                   = (Raise (HTTPException 400
                        (lit "No user message found in the conversation")), t)).
  { intros i.
    cbv beta iota zeta delta [create_chat_completion try_except bind raise ret].
    rewrite Hscan. reflexivity. }
  split; [apply Hall|]. split.
  - now rewrite Hall.
  - intros answer. now rewrite Hall.
Qed.

Lemma no_user_message_is_rejected_witness :
  let request :=
    request_with (lit "claude-sonnet-4")
      [ says (lit "system") (lit "be brief");
        says (lit "assistant") (lit "hello") ] None in
  let w := world_where (Process (fun _ => Communicated (lit "4") [] 0%Z)) in
  create_chat_completion (claude_interface w) w request []
    = (Raise (HTTPException 400
                (lit "No user message found in the conversation")), []).
Proof.
  cbv zeta.
  apply no_user_message_is_rejected.
  repeat constructor.
Defined.

(** C9.  A body the completion handler returns has exactly one choice:
    index 0, a message of role [assistant], finish reason [stop]; and
    its model field repeats the model id of the request as it was sent,
    whatever the request's [n] is. *)
Theorem completion_has_one_choice :
  forall iface w request t resp t',
    create_chat_completion iface w request t = (Return resp, t') ->
    (exists text,
       choices resp =
       [ {| index := 0;
            message := {| role := lit "assistant"; content := text; name := None |};
            finish_reason := lit "stop" |} ]) /\
    response_model resp = model request.
Proof.
  intros iface w request t resp t' Hret.
  destruct (completion_returns _ _ _ _ Hret) as (response & _ & _ & ->).
  split; [exists response|]; reflexivity.
Qed.

Lemma completion_has_one_choice_witness :
  let request :=
    request_with (lit "claude-haiku-3.5") [ says (lit "user") (lit "2+2?") ]
                 (Some 3%Z) in
  let w := world_where (Process (fun _ => Communicated (lit "4") [] 0%Z)) in
  exists resp t',
    create_chat_completion (claude_interface w) w request [] = (Return resp, t') /\
    List.length (choices resp) = 1%nat /\
    response_model resp = lit "claude-haiku-3.5".
Proof.
  cbv zeta. eexists. eexists.
  assert (H : create_chat_completion
                (claude_interface (world_where (Process (fun _ => Communicated (lit "4") [] 0%Z))))
                (world_where (Process (fun _ => Communicated (lit "4") [] 0%Z)))
                (request_with (lit "claude-haiku-3.5")
                   [ says (lit "user") (lit "2+2?") ] (Some 3%Z)) []
              = (Return _, _)) by (vm_compute; reflexivity).
  split; [exact H|].
  destruct (completion_has_one_choice _ _ _ _ H) as [[text Hc] Hm].
  split; [now rewrite Hc | exact Hm].
Defined.

(** C4.  When the child started for the last user message exits with
    code 0 and a given stdout, the handler returns a body whose only
    choice carries the extractor's output on that stdout, and whose
    [total_tokens] is the truncation of the float sum of 1.3 times the
    word count of the prompt and 1.3 times the word count of the
    extracted text. *)
Theorem completion_round_trip :
  forall w request before m after child stdout stderr t,
    messages request = before ++ m :: after ->
    is_user m = true ->
    Forall (fun x => is_user x = false) after ->
    content m <> [] ->
    spawn w (command_line (model request) (content m)) (child_env w)
          (expanduser_home w) = Process child ->
    child 300%Z = Communicated stdout stderr 0 ->
    exists resp t',
      create_chat_completion (claude_interface w) w request t = (Return resp, t') /\
      map (fun c => content (message c)) (choices resp)
        = [extract_claude_response stdout] /\
      total_tokens (usage resp)
        = Float64.trunc
            (Float64.add
               (Float64.mul (Float64.of_int (count_words (content m)))
                            Float64.lit_1_3)
               (Float64.mul
                  (Float64.of_int (count_words (extract_claude_response stdout)))
                  Float64.lit_1_3)).
Proof.
  intros w request before m after child stdout stderr t
         Hmsgs Hm Hafter Hne Hspawn Hchild.
  pose proof (@scan_finds_last_user _ _ _ _ Hmsgs Hm Hafter) as Hscan.
  assert (Hrun : run_claude_command (claude_interface w) (content m)
                   (model request) t
                 = (Return (true, extract_claude_response stdout),
                    t ++ [Popen (command_line (model request) (content m))
                            (child_env w) (expanduser_home w)])).
  { unfold claude_interface, run_claude_command.
    rewrite run_claude_command_eval. cbv zeta.
    now rewrite Hspawn, Hchild. }
  eexists. eexists. split.
  - apply completion_of_success; rewrite Hscan; [exact Hne | exact Hrun].
  - rewrite Hscan. split; reflexivity.
Qed.

Lemma completion_round_trip_witness :
  let stdout := lit "Loading project" ++ [nl] ++ lit "The answer is four." ++ [nl] in
  let w := world_where (Process (fun _ => Communicated stdout [] 0%Z)) in
  let request :=
    request_with (lit "claude-haiku-3.5") [ says (lit "user") (lit "2+2?") ] None in
  exists resp t',
    create_chat_completion (claude_interface w) w request [] = (Return resp, t') /\
    map (fun c => content (message c)) (choices resp) = [lit "The answer is four."] /\
    total_tokens (usage resp) = 6%Z.
Proof.
  cbv zeta.
  destruct (@completion_round_trip
              (world_where (Process (fun _ =>
                 Communicated (lit "Loading project" ++ [nl]
                               ++ lit "The answer is four." ++ [nl]) [] 0%Z)))
              (request_with (lit "claude-haiku-3.5")
                 [ says (lit "user") (lit "2+2?") ] None)
              [] (says (lit "user") (lit "2+2?")) []
              (fun _ => Communicated (lit "Loading project" ++ [nl]
                                      ++ lit "The answer is four." ++ [nl]) [] 0%Z)
              (lit "Loading project" ++ [nl] ++ lit "The answer is four." ++ [nl])
              [] [])
    as (resp & t' & Hret & Hcontent & Htotal).
  - reflexivity.
  - vm_compute. reflexivity.
  - constructor.
  - vm_compute. discriminate.
  - reflexivity.
  - reflexivity.
  - exists resp, t'. split; [exact Hret|]. split.
    + rewrite Hcontent. vm_compute. reflexivity.
    + rewrite Htotal. vm_compute. reflexivity.
Defined.

(** C10.  In a body the completion handler returns, [total_tokens] is
    [prompt_tokens + completion_tokens] or one more, for a prompt and a
    completion of fewer than [2^40] words each; and one more does
    occur, as for a prompt of three words answered with three words:
    [3 + 3] against a total of [7].  The total truncates the sum of the
    two float estimates, the two fields truncate each estimate. *)
Theorem total_tokens_within_one :
  (forall iface w request t resp t',
     create_chat_completion iface w request t = (Return resp, t') ->
     (count_words (last_user_loop (rev (messages request)) []) < 2 ^ 40)%Z ->
     (forall c, In c (choices resp) ->
                (count_words (content (message c)) < 2 ^ 40)%Z) ->
     (prompt_tokens (usage resp) + completion_tokens (usage resp)
        <= total_tokens (usage resp)
        <= prompt_tokens (usage resp) + completion_tokens (usage resp) + 1)%Z)
  /\
  (exists iface w request t resp t',
     create_chat_completion iface w request t = (Return resp, t') /\
     count_words (last_user_loop (rev (messages request)) []) = 3%Z /\
     map (fun c => count_words (content (message c))) (choices resp) = [3%Z] /\
     (prompt_tokens (usage resp) + completion_tokens (usage resp)
        < total_tokens (usage resp))%Z).
Proof.
  split.
  - intros iface w request t resp t' Hret Hprompt Hcompletion.
    destruct (completion_returns _ _ _ _ Hret) as (response & _ & _ & ->).
    cbv zeta in *.
    specialize (Hcompletion _ (or_introl eq_refl)).
    cbn [completion_body usage prompt_tokens completion_tokens total_tokens
         message content says] in *.
    apply usage_bounds; unfold count_words in *; lia.
  - exists (double (fun _ _ => Return (true, lit "two plus two"))).
    exists (world_where (PopenRaises (Exception []))).
    exists (request_with (lit "claude-sonnet-4")
              [ says (lit "user") (lit "one plus three") ] None).
    exists []. eexists. eexists.
    split; [vm_compute; reflexivity|].
    repeat split; vm_compute; reflexivity.
Qed.

Lemma total_tokens_within_one_witness :
  let request :=
    request_with (lit "claude-sonnet-4")
      [ says (lit "user") (lit "what is seven times six") ] None in
  let w := world_where (Process (fun _ => Communicated (lit "forty two, of course") [] 0%Z)) in
  exists resp t',
    create_chat_completion (claude_interface w) w request [] = (Return resp, t') /\
    (prompt_tokens (usage resp) + completion_tokens (usage resp)
       <= total_tokens (usage resp)
       <= prompt_tokens (usage resp) + completion_tokens (usage resp) + 1)%Z.
Proof.
  cbv zeta. eexists. eexists.
  assert (H : create_chat_completion
                (claude_interface
                   (world_where (Process (fun _ =>
                      Communicated (lit "forty two, of course") [] 0%Z))))
                (world_where (Process (fun _ =>
                   Communicated (lit "forty two, of course") [] 0%Z)))
                (request_with (lit "claude-sonnet-4")
                   [ says (lit "user") (lit "what is seven times six") ] None) []
              = (Return _, _)) by (vm_compute; reflexivity).
  split; [exact H|].
  apply (proj1 total_tokens_within_one _ _ _ _ _ _ H).
  - vm_compute. reflexivity.
  - intros c [<-|[]]. vm_compute. reflexivity.
Defined.

(* ================================================================== *)
(** * Beyond the specification: more of [main.py] *)
(* ================================================================== *)

Import Coverage.

(** ** More facts about the string primitives *)

Module PyMore.
Import Py Reference Coverage PyFacts.

Lemma lstrip_shape (s : str) :
  lstrip s = [] \/ exists c r, lstrip s = c :: r /\ isspace c = false.
Proof.
  induction s as [|c s IH]; simpl; [now left|].
  destruct (isspace c) eqn:Hc; [exact IH|].
  right. now exists c, s.
Qed.

Lemma rstrip_cons_solid (c : char) (s : str) :
  isspace c = false -> exists r, rstrip (c :: s) = c :: r.
Proof.
  intros Hc. simpl. destruct (rstrip s) as [|x r].
  - rewrite Hc. now exists [].
  - now exists (x :: r).
Qed.

Lemma rstrip_last_solid (s : str) :
  rstrip s = [] \/ isspace (last (rstrip s) 0%N) = false.
Proof.
  induction s as [|c s IH]; simpl; [now left|].
  destruct (rstrip s) as [|x r].
  - destruct (isspace c) eqn:Hc; [now left|]. right. exact Hc.
  - right. destruct IH as [IH|IH]; [discriminate|]. exact IH.
Qed.

Lemma strip_tidy (s : str) : tidy (strip s).
Proof.
  unfold strip, tidy.
  destruct (lstrip_shape s) as [->|(c & r & -> & Hc)]; [now left|].
  destruct (@rstrip_cons_solid c r Hc) as [r' Hr].
  right. split.
  - rewrite Hr. exact Hc.
  - destruct (rstrip_last_solid (c :: r)) as [H|H]; [congruence|exact H].
Qed.

Lemma tidy_strip (s : str) : tidy s -> strip s = s.
Proof.
  intros [->|[Hh Hl]]; [reflexivity|].
  destruct s as [|c s]; [reflexivity|].
  unfold strip. simpl in Hh. simpl lstrip. rewrite Hh.
  destruct (@exists_last _ (c :: s) ltac:(discriminate)) as (a & d & E).
  rewrite E in *. rewrite last_last in Hl.
  now apply rstrip_snoc_solid.
Qed.

Lemma strip_idempotent (s : str) : strip (strip s) = strip s.
Proof. apply tidy_strip, strip_tidy. Qed.

Lemma lstrip_incl (s : str) (c : char) : In c (lstrip s) -> In c s.
Proof.
  induction s as [|x s IH]; simpl; [auto|].
  destruct (isspace x); [intros H; right; auto|auto].
Qed.

Lemma rstrip_incl (s : str) (c : char) : In c (rstrip s) -> In c s.
Proof.
  induction s as [|x s IH]; simpl; [auto|].
  destruct (rstrip s) as [|y r].
  - destruct (isspace x); simpl; intuition.
  - simpl. intros [H|H]; [now left|right; apply IH; exact H].
Qed.

Lemma strip_incl (s : str) (c : char) : In c (strip s) -> In c s.
Proof. intros H. apply lstrip_incl, rstrip_incl, H. Qed.

Lemma lstrip_length (s : str) : (List.length (lstrip s) <= List.length s)%nat.
Proof.
  induction s as [|x s IH]; simpl; [lia|].
  destruct (isspace x); simpl; lia.
Qed.

Lemma rstrip_length (s : str) : (List.length (rstrip s) <= List.length s)%nat.
Proof.
  induction s as [|x s IH]; simpl; [lia|].
  destruct (rstrip s) as [|y r].
  - destruct (isspace x); simpl; lia.
  - simpl in *. lia.
Qed.

Lemma strip_length (s : str) : (List.length (strip s) <= List.length s)%nat.
Proof.
  unfold strip. pose proof (rstrip_length (lstrip s)). pose proof (lstrip_length s). lia.
Qed.

(** Lines and separators. *)
Lemma split_on_no_sep (sep : char) (s : str) :
  Forall (fun l => ~ In sep l) (split_on sep s).
Proof.
  induction s as [|c s IH]; simpl.
  - constructor; [intros []|constructor].
  - destruct (N.eqb c sep) eqn:E.
    + constructor; [intros []|exact IH].
    + destruct (split_on sep s) as [|l ls]; [repeat constructor; intros [H|[]]|].
      * subst. now rewrite N.eqb_refl in E.
      * inversion IH; subst. constructor; [|assumption].
        intros [H|H]; [subst; now rewrite N.eqb_refl in E|contradiction].
Qed.

Lemma split_on_app_sep (sep : char) (l s : str) :
  ~ In sep l -> split_on sep (l ++ sep :: s) = l :: split_on sep s.
Proof.
  induction l as [|c l IH]; intros H; simpl.
  - now rewrite N.eqb_refl.
  - destruct (N.eqb c sep) eqn:E.
    + apply N.eqb_eq in E. subst. exfalso. apply H. now left.
    + rewrite IH; [reflexivity|]. intros Hin. apply H. now right.
Qed.

Lemma split_on_whole (sep : char) (l : str) :
  ~ In sep l -> split_on sep l = [l].
Proof.
  induction l as [|c l IH]; intros H; simpl; [reflexivity|].
  destruct (N.eqb c sep) eqn:E.
  - apply N.eqb_eq in E. subst. exfalso. apply H. now left.
  - rewrite IH; [reflexivity|]. intros Hin. apply H. now right.
Qed.

Lemma split_join (sep : char) (ls : list str) :
  ls <> [] -> Forall (fun l => ~ In sep l) ls ->
  split_on sep (join [sep] ls) = ls.
Proof.
  intros Hne Hall. induction Hall as [|l ls Hl Hls IH]; [contradiction|].
  destruct ls as [|l' ls].
  - simpl. now apply split_on_whole.
  - change (join [sep] (l :: l' :: ls)) with (l ++ sep :: join [sep] (l' :: ls)).
    rewrite split_on_app_sep by assumption.
    rewrite IH; [reflexivity|discriminate].
Qed.

Lemma join_split (sep : char) (s : str) :
  join [sep] (split_on sep s) = s.
Proof.
  induction s as [|c s IH]; [reflexivity|].
  simpl split_on. pose proof (split_on_nonempty sep s) as Hne.
  destruct (N.eqb c sep) eqn:E.
  - apply N.eqb_eq in E. subst c.
    destruct (split_on sep s) as [|l ls]; [contradiction|].
    change (join [sep] ([] :: l :: ls)) with ([] ++ [sep] ++ join [sep] (l :: ls)).
    now rewrite IH.
  - destruct (split_on sep s) as [|l ls]; [contradiction|].
    destruct ls as [|l' ls].
    + simpl in *. now rewrite IH.
    + change (join [sep] ((c :: l) :: l' :: ls))
        with (c :: (l ++ [sep] ++ join [sep] (l' :: ls))).
      change (join [sep] (l :: l' :: ls))
        with (l ++ [sep] ++ join [sep] (l' :: ls)) in IH.
      now rewrite IH.
Qed.

Lemma join_cons_length (sep : str) (l : str) (ls : list str) :
  List.length (join sep (l :: ls)) =
  (List.length l
   + match ls with [] => 0 | _ => List.length sep + List.length (join sep ls) end)%nat.
Proof.
  destruct ls as [|l' ls]; [simpl; lia|].
  change (join sep (l :: l' :: ls)) with (l ++ sep ++ join sep (l' :: ls)).
  now rewrite !length_app.
Qed.

Lemma last_app_right {A} (a b : list A) (d : A) :
  b <> [] -> last (a ++ b) d = last b d.
Proof.
  intros Hb. induction a as [|x a IH]; [reflexivity|].
  simpl app. destruct (a ++ b) eqn:E.
  - destruct a, b; try discriminate. contradiction.
  - simpl. simpl in IH. exact IH.
Qed.

Lemma join_tidy (ls : list str) :
  ls <> [] -> Forall (fun l => l <> [] /\ tidy l) ls ->
  join [nl] ls <> [] /\ tidy (join [nl] ls).
Proof.
  intros Hne Hall. induction Hall as [|l ls [Hl Ht] Hls IH]; [contradiction|].
  destruct ls as [|l' ls].
  - simpl. auto.
  - change (join [nl] (l :: l' :: ls)) with (l ++ [nl] ++ join [nl] (l' :: ls)).
    destruct IH as [IHne IHt]; [discriminate|].
    destruct Ht as [->|[Hh _]]; [contradiction|].
    destruct IHt as [E|[_ Hlast]]; [contradiction|].
    destruct l as [|c l]; [contradiction|].
    split; [discriminate|]. right. split; [exact Hh|].
    rewrite app_assoc. rewrite last_app_right by assumption. exact Hlast.
Qed.

End PyMore.

(** ** More facts about the extractor *)

Module ExtractorMore.
Import Py Main Reference Coverage PyFacts ExtractorFacts PyMore.

Lemma noisy_lstrip (l : str) : noisy (lstrip l) = noisy l.
Proof.
  induction l as [|c l IH]; [reflexivity|].
  simpl lstrip. destruct (isspace c) eqn:Hc; [|reflexivity].
  rewrite IH. symmetry. now apply noisy_cons_space.
Qed.

Lemma noisy_rstrip (l : str) : noisy (rstrip l) = noisy l.
Proof.
  induction l as [|c l IH] using rev_ind; [reflexivity|].
  destruct (isspace c) eqn:Hc.
  - rewrite rstrip_snoc_space by assumption. rewrite IH.
    symmetry. now apply noisy_snoc_space.
  - now rewrite rstrip_snoc_solid.
Qed.

Lemma noisy_strip (l : str) : noisy (strip l) = noisy l.
Proof. unfold strip. now rewrite noisy_rstrip, noisy_lstrip. Qed.

Lemma keeps_strip (l : str) : keeps (strip l) = keeps l.
Proof. unfold keeps, blank. now rewrite strip_idempotent, noisy_strip. Qed.

Lemma cleaned_lines_kept (s : str) :
  Forall kept_line (cleaned (split_on nl s)).
Proof.
  unfold cleaned. pose proof (split_on_no_sep nl s) as Hsep.
  induction Hsep as [|l ls Hl _ IH]; simpl; [constructor|].
  destruct (keeps l) eqn:Hk; [|exact IH].
  simpl. constructor; [|exact IH].
  unfold kept_line. repeat split.
  - unfold keeps, blank in Hk. apply andb_prop in Hk as [Hb _].
    destruct (strip l); [discriminate|discriminate].
  - apply strip_tidy.
  - now rewrite keeps_strip.
  - intros Hin. apply Hl. now apply strip_incl.
Qed.

Lemma cleaned_of_kept (ls : list str) :
  Forall kept_line ls -> cleaned ls = ls.
Proof.
  induction 1 as [|l ls (_ & Ht & Hk & _) _ IH]; [reflexivity|].
  rewrite cleaned_cons, Hk, IH, (tidy_strip Ht). reflexivity.
Qed.

Lemma kept_lines_join (ls : list str) :
  ls <> [] -> Forall kept_line ls ->
  join [nl] ls <> [] /\ tidy (join [nl] ls) /\
  split_on nl (join [nl] ls) = ls.
Proof.
  intros Hne Hall.
  destruct (@join_tidy ls Hne) as [H1 H2].
  { eapply Forall_impl; [|exact Hall]. intros l (Ha & Hb & _). auto. }
  split; [exact H1|]. split; [exact H2|].
  apply split_join; [exact Hne|].
  eapply Forall_impl; [|exact Hall]. intros l (_ & _ & _ & Hd). exact Hd.
Qed.

Lemma cleaned_length (ls : list str) :
  (List.length (join [nl] (cleaned ls)) <= List.length (join [nl] ls))%nat.
Proof.
  induction ls as [|l ls IH]; [simpl; lia|].
  rewrite cleaned_cons. rewrite (join_cons_length [nl] l ls).
  destruct (keeps l).
  - simpl app. rewrite (join_cons_length [nl] (strip l) (cleaned ls)).
    pose proof (strip_length l).
    destruct (cleaned ls) eqn:Ec.
    + lia.
    + destruct ls as [|l' ls]; [discriminate|]. simpl List.length in *. lia.
  - simpl app. destruct ls; simpl List.length in *; lia.
Qed.

(** The two ways out of the extractor. *)
Lemma extract_cases (output : str) :
  let text := join [nl] (cleaned (split_on nl output)) in
  (extract_claude_response output = strip output /\
   (text = [] \/ (len text < 10)%Z)) \/
  (extract_claude_response output = text /\ text <> [] /\ (10 <= len text)%Z).
Proof.
  cbv zeta. rewrite extract_unfold. cbv zeta.
  destruct (join [nl] (cleaned (split_on nl output))) as [|c text] eqn:E.
  - left. simpl. auto.
  - simpl str_eqb. rewrite orb_false_l.
    destruct (len (c :: text) <? 10)%Z eqn:El.
    + left. apply Z.ltb_lt in El. auto.
    + right. apply Z.ltb_ge in El. repeat split; [discriminate|exact El].
Qed.

End ExtractorMore.

(** ** The model table and the child environment *)

Module TableFacts.
Import Py Main Reference Coverage PyFacts.

Lemma dict_get_value {V} (d : dict V) (k : str) (default : V) :
  dict_get d k default = default \/ In (dict_get d k default) (map snd d).
Proof.
  induction d as [|[k' v] d IH]; simpl; [now left|].
  destruct (str_eqb k' k); [right; now left|].
  destruct IH as [IH|IH]; [now left|right; now right].
Qed.

Lemma dict_get_set_same {V} (d : dict V) (k : str) (v default : V) :
  dict_get (dict_set d k v) k default = v.
Proof.
  induction d as [|[k' v'] d IH]; simpl.
  - now rewrite str_eqb_refl.
  - destruct (str_eqb k' k) eqn:E; simpl; rewrite E; [reflexivity|exact IH].
Qed.

Lemma dict_get_set_other {V} (d : dict V) (k k' : str) (v default : V) :
  str_eqb k k' = false ->
  dict_get (dict_set d k v) k' default = dict_get d k' default.
Proof.
  intros Hk. induction d as [|[k0 v0] d IH]; simpl.
  - now rewrite Hk.
  - destruct (str_eqb k0 k) eqn:E; simpl.
    + apply str_eqb_eq in E. subst k0. now rewrite Hk.
    + now rewrite IH.
Qed.

Lemma canonical_is_fixed (x : str) :
  In x canonical_ids -> claude_model x = x.
Proof.
  intros H. simpl in H.
  repeat (destruct H as [<-|H]; [vm_compute; reflexivity|]).
  contradiction.
Qed.

Lemma claude_model_canonical (requested : str) :
  In (claude_model requested) canonical_ids.
Proof.
  unfold claude_model.
  destruct (dict_get_value model_mapping requested (lit "claude-sonnet-4-20250514"))
    as [->|H].
  - now left.
  - revert H. generalize (dict_get model_mapping requested
                            (lit "claude-sonnet-4-20250514")).
    intros v H. simpl in H.
    repeat (destruct H as [<-|H]; [simpl; tauto|]). contradiction.
Qed.

End TableFacts.

(** ** The runner and the handlers, evaluated *)

Module RunnerFacts.
Import Py Effects Main Reference Coverage PyFacts HandlerFacts.

(** The runner in terms of how the child ends. *)
Lemma runner_trace (w : World) (message model : str) (t : list event) :
  snd (run_claude_command (claude_interface w) message model t)
  = t ++ runner_events w message model.
Proof.
  unfold claude_interface, run_claude_command, runner_events, wait_times_out.
  rewrite run_claude_command_eval. cbv zeta.
  destruct (spawn w (command_line model message) (child_env w)
              (expanduser_home w)) as [e|b|child]; [reflexivity|reflexivity|].
  destruct (child 300%Z) as [stdout stderr rc|e|b].
  - destruct (rc =? 0)%Z; reflexivity.
  - destruct e; cbn [snd]; try reflexivity. now rewrite <- app_assoc.
  - reflexivity.
Qed.

Lemma runner_outcome (w : World) (message model : str) (t : list event) :
  match interrupted w message model, exits_zero w message model with
  | Some b, _ =>
      fst (run_claude_command (claude_interface w) message model t) = Abort b
  | None, Some stdout =>
      fst (run_claude_command (claude_interface w) message model t)
      = Return (true, extract_claude_response stdout)
  | None, None =>
      exists payload,
        fst (run_claude_command (claude_interface w) message model t)
        = Return (false, payload)
  end.
Proof.
  pose proof (run_claude_command_eval w 300 message model t) as E.
  cbv zeta in E. revert E.
  unfold claude_interface, run_claude_command, exits_zero, interrupted.
  destruct (spawn w (command_line model message) (child_env w)
              (expanduser_home w)) as [e|b|child].
  - intros ->. eexists. reflexivity.
  - intros ->. reflexivity.
  - destruct (child 300%Z) as [stdout stderr rc|e|b].
    + destruct (rc =? 0)%Z; intros ->; [reflexivity|eexists; reflexivity].
    + destruct e; intros ->; eexists; reflexivity.
    + intros ->. reflexivity.
Qed.

Lemma interrupted_not_zero (w : World) (message model : str) (b : base_exn) :
  interrupted w message model = Some b -> exits_zero w message model = None.
Proof.
  unfold interrupted, exits_zero.
  destruct (spawn w (command_line model message) (child_env w)
              (expanduser_home w)) as [e|b'|child]; try discriminate.
  - reflexivity.
  - destruct (child 300%Z); [discriminate|discriminate|reflexivity].
Qed.

(** The completion handler in terms of what the runner does. *)
Lemma completion_eval (iface : ClaudeCodeInterface) (w : World)
    (request : ChatCompletionRequest) (t : list event) :
  create_chat_completion iface w request t =
  match prompt_of request with
  | [] => (Raise (HTTPException 400
                    (lit "No user message found in the conversation")), t)
  | _ :: _ =>
      match run_claude_command iface (prompt_of request) (model request) t with
      | (Return (true, response), t') =>
          (Return (completion_body w request (prompt_of request) response), t')
      | (Return (false, payload), t') =>
          (Raise (HTTPException 500 (lit "Claude Code CLI error: " ++ payload)), t')
      | (Raise (HTTPException status_code detail), t') =>
          (Raise (HTTPException status_code detail), t')
      | (Raise e, t') =>
          (Raise (HTTPException 500
                    (lit "Internal server error: " ++ exn_str e)), t')
      | (Abort b, t') => (Abort b, t')
      end
  end.
Proof.
  unfold prompt_of.
  cbv beta iota zeta delta [create_chat_completion try_except bind raise ret].
  destruct (last_user_loop (rev (messages request)) []) as [|c um];
    cbn [truthy negb]; cbv beta; [reflexivity|].
  destruct (run_claude_command iface (c :: um) (model request) t)
    as [[[[|] response]|e|b] t']; cbn [negb]; try reflexivity.
  destruct e; reflexivity.
Qed.

Lemma prompt_of_user (msgs : list ChatMessage) (u : str) :
  last_user_loop msgs u = u \/
  exists m, In m msgs /\ is_user m = true /\ content m = last_user_loop msgs u.
Proof.
  induction msgs as [|m msgs IH]; simpl; [now left|].
  destruct (str_eqb (role m) (lit "user")) eqn:E.
  - right. exists m. repeat split; [now left|exact E].
  - destruct IH as [IH|(m' & Hin & Hu & Hc)]; [now left|].
    right. exists m'. repeat split; [now right|exact Hu|exact Hc].
Qed.

End RunnerFacts.

(** ** The token estimate *)

Module EstimateFacts.
Import Float64 Reference Float64Facts.
Local Open Scope Z_scope.

(** Below [2^40] words the float estimate truncates to the exact
    [13 * words / 10]. *)
Lemma estimate_floor (a : Z) :
  0 <= a < 2 ^ 40 -> trunc (estimate a) = 13 * a / 10.
Proof.
  intros Ha.
  assert (Hr : round a 0 = mk a 0).
  { unfold round, prec. rewrite Z.abs_eq by lia.
    assert (Z.log2 a < 40).
    { destruct (Z.eq_dec a 0) as [->|]; [simpl; lia|].
      apply Z.log2_lt_pow2; lia. }
    destruct (Z.log2 a + 1 - 53 <=? 0) eqn:E; [reflexivity|].
    apply Z.leb_gt in E. lia. }
  unfold estimate, of_int. rewrite Hr. unfold mul, lit_1_3. cbn [mant expo].
  replace (0 + -52) with (-52) by lia.
  set (M := 5854679515581645).
  assert (HaM : 0 <= a * M) by (unfold M; lia).
  destruct (@round_units (a * M) (-52) HaM ltac:(lia)) as (H1 & H2 & H3 & H4).
  replace (-52 + 52) with 0 in * by lia. rewrite Z.pow_0_r, Z.mul_1_r in *.
  apply trunc_between; [exact H1|exact H2|].
  pose proof (Z.div_mod (13 * a) 10 ltac:(lia)) as Hd.
  pose proof (Z.mod_pos_bound (13 * a) 10 ltac:(lia)) as Hb.
  set (q := 13 * a / 10) in *. set (r := (13 * a) mod 10) in *.
  set (V := units (round (a * M) (-52))) in *.
  change (2 ^ 40) with 1099511627776 in *.
  change (2 ^ 52) with 4503599627370496 in *.
  change (2 ^ 53) with 9007199254740992 in *.
  split.
  - apply (H4 (q * 4503599627370496) 52).
    + lia.
    + exists q. reflexivity.
    + unfold M. lia.
    + change (2 ^ (52 + 53)) with 40564819207303340847894502572032. unfold M. lia.
  - unfold M in *. lia.
Qed.

End EstimateFacts.

Import PyMore ExtractorMore TableFacts RunnerFacts EstimateFacts.

(** ** Properties *)


(** X1.  Whatever model name is requested, the name handed to the
    command-line tool is one of the five canonical ids, and resolving a
    resolved name changes nothing. *)
Theorem resolved_model_is_canonical :
  forall requested,
    In (claude_model requested) canonical_ids /\
    claude_model (claude_model requested) = claude_model requested.
Proof.
  intros requested. split.
  - apply claude_model_canonical.
  - apply canonical_is_fixed, claude_model_canonical.
Qed.

(** X2.  The catalogue of [list_models] and the table of
    [run_claude_command] agree: the five listed ids are keys of the
    table and resolve, in the order listed, to the five canonical ids,
    which are pairwise distinct; each card's [root] is its [id]. *)
Theorem listed_models_resolve_to_the_canonical_ids :
  map (fun card => claude_model (Routes.id card)) (Routes.data Routes.list_models)
    = canonical_ids /\
  NoDup canonical_ids /\
  Forall (fun card => In (Routes.id card) (map fst model_mapping) /\
                      Routes.root card = Routes.id card)
         (Routes.data Routes.list_models).
Proof.
  split; [vm_compute; reflexivity|]. split.
  - repeat constructor; simpl; intuition discriminate.
  - repeat constructor; simpl; tauto.
Qed.

(** X3.  The environment of the child holds the four fixed settings
    whatever the server's environment held for them, and every other
    variable reads as in the server's environment. *)
Theorem child_env_overrides_and_inherits :
  forall w default,
    dict_get (child_env w) (lit "NODE_ENV") default = lit "production" /\
    dict_get (child_env w) (lit "NODE_OPTIONS") default
      = lit "--max-old-space-size=512" /\
    dict_get (child_env w) (lit "CLAUDE_DISABLE_TELEMETRY") default = lit "1" /\
    dict_get (child_env w) (lit "CLAUDE_DISABLE_ANALYTICS") default = lit "1" /\
    forall key, ~ In key overridden ->
      dict_get (child_env w) key default = dict_get (environ w) key default.
Proof.
  intros w default. unfold child_env. repeat split.
  - rewrite !dict_get_set_other by reflexivity. apply dict_get_set_same.
  - rewrite !dict_get_set_other by reflexivity. apply dict_get_set_same.
  - rewrite !dict_get_set_other by reflexivity. apply dict_get_set_same.
  - apply dict_get_set_same.
  - intros key Hout.
    rewrite !dict_get_set_other; [reflexivity| | | |];
      apply str_eqb_neq; intros <-; apply Hout; simpl; tauto.
Qed.

Lemma child_env_overrides_and_inherits_witness :
  let w := world_where (PopenRaises (Exception [])) in
  dict_get (child_env w) (lit "HOME") [] = lit "/home/api".
Proof.
  cbv zeta.
  destruct (child_env_overrides_and_inherits
              (world_where (PopenRaises (Exception []))) [])
    as (_ & _ & _ & _ & Hother).
  rewrite Hother; [reflexivity|].
  vm_compute. intuition discriminate.
Defined.


(** X4.  One call of the runner starts exactly one child, with the
    command line, the child environment and the home directory, and
    kills it exactly when waiting for it times out; it leaves the
    earlier events of the trace in place. *)
Theorem runner_starts_one_child :
  forall w message model t,
    snd (run_claude_command (claude_interface w) message model t)
    = t ++ Popen (command_line model message) (child_env w) (expanduser_home w)
           :: (if wait_times_out w message model then [Kill] else []).
Proof. intros. apply runner_trace. Qed.

(** X5.  The runner reports success exactly when the child it started
    exits with code 0, and the payload is then the extractor's output
    on the child's stdout. *)
Theorem runner_succeeds_iff_exit_zero :
  forall w message model t payload,
    fst (run_claude_command (claude_interface w) message model t)
      = Return (true, payload)
    <-> exists stdout,
          exits_zero w message model = Some stdout /\
          payload = extract_claude_response stdout.
Proof.
  intros w message model t payload.
  pose proof (runner_outcome w message model t) as H.
  pose proof (@interrupted_not_zero w message model) as Hi.
  destruct (interrupted w message model) as [b|].
  - rewrite H, (Hi b eq_refl). split.
    + discriminate.
    + intros (s & Hs & _). discriminate.
  - destruct (exits_zero w message model) as [stdout|].
    + rewrite H. split.
      * intros E. inversion E. now exists stdout.
      * intros (s & Hs & ->). now inversion Hs.
    + destruct H as [p ->]. split.
      * discriminate.
      * intros (s & Hs & _). discriminate.
Qed.

Lemma runner_succeeds_iff_exit_zero_witness :
  let stdout := lit "Session 3" ++ [nl] ++ lit "The answer is four." ++ [nl] in
  let w := world_where (Process (fun _ => Communicated stdout [] 0%Z)) in
  fst (run_claude_command (claude_interface w) (lit "2+2?") (lit "claude-opus-4") [])
  = Return (true, lit "The answer is four.").
Proof.
  cbv zeta.
  apply (proj2 (runner_succeeds_iff_exit_zero _ _ _ _ _)).
  eexists. split; vm_compute; reflexivity.
Defined.

(** X11.  The prompt the handler settles on is either empty or the
    content of a user-role message of the request: text of a system or
    assistant message is never used. *)
Theorem prompt_comes_from_a_user_message :
  forall request,
    prompt_of request = [] \/
    exists m, In m (messages request) /\ is_user m = true /\
              content m = prompt_of request.
Proof.
  intros request. unfold prompt_of.
  destruct (prompt_of_user (rev (messages request)) []) as [H|(m & Hin & Hu & Hc)].
  - now left.
  - right. exists m. repeat split; [|exact Hu|exact Hc].
    now apply in_rev.
Qed.

(** X12.  When the runner returns a failure, the handler raises the
    exception of status 500 whose detail is [Claude Code CLI error: ]
    followed by the runner's payload, and adds no event of its own. *)
Theorem runner_failure_is_500 :
  forall iface w request t payload t',
    prompt_of request <> [] ->
    run_claude_command iface (prompt_of request) (model request) t
      = (Return (false, payload), t') ->
    create_chat_completion iface w request t
      = (Raise (HTTPException 500 (lit "Claude Code CLI error: " ++ payload)), t').
Proof.
  intros iface w request t payload t' Hne Hrun.
  rewrite completion_eval.
  destruct (prompt_of request); [contradiction|]. now rewrite Hrun.
Qed.

Lemma runner_failure_is_500_witness :
  let request :=
    request_with (lit "claude-sonnet-4") [ says (lit "user") (lit "2+2?") ] None in
  let w := world_where (PopenRaises (Exception [])) in
  create_chat_completion (double (fun _ _ => Return (false, lit "boom"))) w request []
  = (Raise (HTTPException 500 (lit "Claude Code CLI error: boom")),
     [Invoked (lit "2+2?") (lit "claude-sonnet-4")]).
Proof.
  cbv zeta.
  apply (@runner_failure_is_500 _ _ _ [] (lit "boom")).
  - vm_compute. discriminate.
  - vm_compute. reflexivity.
Defined.



(** X14.  No exception of class [Exception] other than an
    [HTTPException] ever leaves the completion handler, whatever the
    runner is.  With the real runner the status is 400
    when the prompt is empty; otherwise, unless the start of the child or
    the wait for it is interrupted by an exception outside [Exception]
    (which passes through), it is 200 when the child exits with code 0
    and 500 in every other case. *)
Theorem completion_status_is_decided :
  (forall iface w request t,
     match create_chat_completion iface w request t with
     | (Return _, _) => True
     | (Raise (HTTPException _ _), _) => True
     | (Raise _, _) => False
     | (Abort _, _) => True
     end) /\
  (forall w request t,
     match prompt_of request with
     | [] =>
         status_of (fst (create_chat_completion (claude_interface w) w request t))
         = 400%Z
     | _ :: _ =>
         match interrupted w (prompt_of request) (model request) with
         | Some b =>
             fst (create_chat_completion (claude_interface w) w request t)
             = Abort b
         | None =>
             status_of (fst (create_chat_completion (claude_interface w) w request t))
             = match exits_zero w (prompt_of request) (model request) with
               | Some _ => 200
               | None => 500
               end%Z
         end
     end).
Proof.
  split.
  - intros iface w request t. rewrite completion_eval.
    destruct (prompt_of request) as [|c um]; [exact I|].
    destruct (run_claude_command iface _ _ t) as [[[[|] r]|e|b] t']; try exact I.
    destruct e; exact I.
  - intros w request t. rewrite completion_eval.
    destruct (prompt_of request) as [|c um]; [reflexivity|].
    pose proof (runner_outcome w (c :: um) (model request) t) as H.
    destruct (run_claude_command (claude_interface w) (c :: um) (model request) t)
      as [r t']. cbn [fst] in H.
    destruct (interrupted w (c :: um) (model request)) as [b|].
    + now rewrite H.
    + destruct (exits_zero w (c :: um) (model request)).
      * now rewrite H.
      * destruct H as [p ->]. reflexivity.
Qed.

Lemma completion_status_is_decided_witness :
  let w := world_where (PopenAborts KeyboardInterrupt) in
  let request :=
    request_with (lit "claude-sonnet-4") [ says (lit "user") (lit "2+2?") ] None in
  fst (create_chat_completion (claude_interface w) w request [])
  = Abort KeyboardInterrupt.
Proof.
  cbv zeta.
  exact (proj2 completion_status_is_decided
           (world_where (PopenAborts KeyboardInterrupt))
           (request_with (lit "claude-sonnet-4")
              [ says (lit "user") (lit "2+2?") ] None) []).
Defined.

(** X15.  The completion handler reads [model] and [messages] only:
    two requests that agree on these two fields get the same outcome
    and leave the same trace, whatever their sampling parameters, [n]
    or [stream] are. *)
Theorem completion_reads_model_and_messages_only :
  forall iface w request1 request2 t,
    model request1 = model request2 ->
    messages request1 = messages request2 ->
    create_chat_completion iface w request1 t
    = create_chat_completion iface w request2 t.
Proof.
  intros iface w request1 request2 t Hmodel Hmessages.
  rewrite !completion_eval. unfold prompt_of, completion_body.
  now rewrite Hmodel, Hmessages.
Qed.

Lemma completion_reads_model_and_messages_only_witness :
  let w := world_where (Process (fun _ => Communicated (lit "4") [] 0%Z)) in
  let msgs := [ says (lit "user") (lit "2+2?") ] in
  create_chat_completion (claude_interface w) w
    {| model := lit "claude-opus-4"; messages := msgs;
       max_tokens := Some 16%Z; temperature := None; top_p := None;
       n := Some 5%Z; stream := Some true; stop := Some (inl (lit "."));
       presence_penalty := None; frequency_penalty := None;
       logit_bias := None; user := Some (lit "alice") |} []
  = create_chat_completion (claude_interface w) w
      (request_with (lit "claude-opus-4") msgs None) [].
Proof.
  cbv zeta.
  apply completion_reads_model_and_messages_only; reflexivity.
Defined.

(** X16.  The completion handler has no effect of its own: it leaves
    the trace untouched when the prompt is empty and otherwise leaves
    what one call of the runner leaves, which for the real runner is
    one child started (and killed on timeout). *)
Theorem completion_effects_are_one_runner_call :
  (forall iface w request t,
     snd (create_chat_completion iface w request t)
     = match prompt_of request with
       | [] => t
       | _ :: _ =>
           snd (run_claude_command iface (prompt_of request) (model request) t)
       end) /\
  (forall w request t,
     snd (create_chat_completion (claude_interface w) w request t)
     = match prompt_of request with
       | [] => t
       | _ :: _ => t ++ runner_events w (prompt_of request) (model request)
       end).
Proof.
  assert (H : forall iface w request t,
     snd (create_chat_completion iface w request t)
     = match prompt_of request with
       | [] => t
       | _ :: _ =>
           snd (run_claude_command iface (prompt_of request) (model request) t)
       end).
  { intros iface w request t. rewrite completion_eval.
    destruct (prompt_of request); [reflexivity|].
    destruct (run_claude_command iface _ _ t) as [[[[|] r]|e|b] t']; try reflexivity.
    destruct e; reflexivity. }
  split; [exact H|].
  intros w request t. rewrite H.
  destruct (prompt_of request); [reflexivity|]. apply runner_trace.
Qed.

(** X17.  The health handler never raises an exception of class
    [Exception]: whatever the runner does, it returns a body, unless
    the runner lets an exception outside [Exception] through, which
    then passes through the handler too.  With the real runner, unless
    the probe's child is interrupted in that way, the body is [healthy]
    when the child exits with code 0 and [degraded] otherwise, never
    [unhealthy]; and the probe runs the command line
    [npx claude --model claude-sonnet-4-20250514
    --dangerously-skip-permissions "Hi"] once. *)
Theorem health_probe_returns_unless_interrupted :
  (forall iface t,
     match run_claude_command iface (lit "Hi") default_model t with
     | (Abort b, t') => health_check iface t = (Abort b, t')
     | (_, t') => exists body, health_check iface t = (Return body, t')
     end) /\
  (forall w t,
     health_check (claude_interface w) t
     = (match interrupted w (lit "Hi") default_model with
        | Some b => Abort b
        | None =>
            Return match exits_zero w (lit "Hi") default_model with
                   | Some _ => healthy_body
                   | None => degraded_body
                   end
        end,
        t ++ Popen probe_command (child_env w) (expanduser_home w)
             :: (if wait_times_out w (lit "Hi") default_model then [Kill] else []))).
Proof.
  split.
  - intros iface t. unfold health_check, try_except, bind, ret.
    destruct (run_claude_command iface (lit "Hi") default_model t)
      as [[[[|] payload]|e|b] t']; [eexists; reflexivity ..|reflexivity].
  - intros w t.
    pose proof (runner_trace w (lit "Hi") default_model t) as Ht.
    pose proof (runner_outcome w (lit "Hi") default_model t) as Ho.
    unfold health_check, try_except, bind, ret.
    destruct (run_claude_command (claude_interface w) (lit "Hi") default_model t)
      as [r t']. cbn [fst snd] in Ht, Ho. subst t'.
    unfold runner_events.
    change (command_line default_model (lit "Hi")) with probe_command.
    destruct (interrupted w (lit "Hi") default_model) as [b|].
    + now rewrite Ho.
    + destruct (exits_zero w (lit "Hi") default_model).
      * now rewrite Ho.
      * destruct Ho as [p ->]. reflexivity.
Qed.

(** X6.  The extractor's output never starts or ends with whitespace:
    trimming it changes nothing. *)
Theorem extractor_output_is_trimmed :
  forall output, strip (extract_claude_response output) = extract_claude_response output.
Proof.
  intros output.
  destruct (extract_cases output) as [[-> _]|(-> & Hne & _)].
  - apply strip_idempotent.
  - apply tidy_strip.
    apply kept_lines_join.
    + intros E. rewrite E in Hne. now apply Hne.
    + apply cleaned_lines_kept.
Qed.

(** X7.  The extractor returns the empty text exactly when the raw text
    is empty or all whitespace. *)
Theorem extractor_empty_iff_blank :
  forall output, extract_claude_response output = [] <-> strip output = [].
Proof.
  intros output. split.
  - destruct (extract_cases output) as [[-> _]|(-> & Hne & _)]; [auto|contradiction].
  - intros Hs. destruct (extract_cases output) as [[-> _]|(_ & Hne & _)]; [exact Hs|].
    exfalso. apply Hne.
    rewrite <- cleaned_split_strip, Hs. reflexivity.
Qed.

Lemma extractor_empty_iff_blank_witness :
  extract_claude_response ([32; 10; 9; 32; 10]%N) = [].
Proof.
  apply (proj2 (extractor_empty_iff_blank _)).
  vm_compute. reflexivity.
Defined.

(** X8.  Extracting twice is extracting once. *)
Theorem extractor_is_idempotent :
  forall output,
    extract_claude_response (extract_claude_response output)
    = extract_claude_response output.
Proof.
  intros output.
  destruct (extract_cases output) as [[E Hshort]|(E & Hne & Hlong)].
  - rewrite E. rewrite extract_unfold. cbv zeta.
    rewrite cleaned_split_strip, strip_idempotent.
    destruct Hshort as [->|Hlt]; [reflexivity|].
    apply Z.ltb_lt in Hlt. rewrite Hlt. now rewrite orb_true_r.
  - rewrite E. rewrite extract_unfold. cbv zeta.
    destruct (@kept_lines_join (cleaned (split_on nl output))) as (_ & _ & Hs).
    + intros H0. rewrite H0 in Hne. now apply Hne.
    + apply cleaned_lines_kept.
    + rewrite Hs, (cleaned_of_kept (cleaned_lines_kept output)).
      destruct (join [nl] (cleaned (split_on nl output))) as [|c text];
        [contradiction|].
      simpl str_eqb. rewrite orb_false_l.
      destruct (len (c :: text) <? 10)%Z eqn:El; [|reflexivity].
      apply Z.ltb_lt in El. lia.
Qed.

(** X9.  The extractor's output is never longer than the raw text. *)
Theorem extractor_never_grows :
  forall output, (len (extract_claude_response output) <= len output)%Z.
Proof.
  intros output. unfold len.
  destruct (extract_cases output) as [[-> _]|(-> & _ & _)].
  - pose proof (strip_length output). lia.
  - pose proof (cleaned_length (split_on nl output)) as H.
    rewrite join_split in H. lia.
Qed.

(** X10.  Whenever the extractor returns something other than the
    trimmed raw text, every line of what it returns is free of noise
    patterns, not blank, and trimmed. *)
Theorem filtered_output_has_clean_lines :
  forall output,
    extract_claude_response output <> strip output ->
    Forall (fun line => noisy line = false /\ blank line = false /\ strip line = line)
           (split_on nl (extract_claude_response output)).
Proof.
  intros output Hdiff.
  destruct (extract_cases output) as [[E _]|(E & Hne & _)]; [contradiction|].
  rewrite E.
  destruct (@kept_lines_join (cleaned (split_on nl output))) as (_ & _ & Hs).
  - intros H0. rewrite H0 in Hne. now apply Hne.
  - apply cleaned_lines_kept.
  - rewrite Hs. eapply Forall_impl; [|apply cleaned_lines_kept].
    intros l (_ & Ht & Hk & _). unfold keeps in Hk.
    apply andb_prop in Hk as [Hb Hn].
    apply negb_true_iff in Hb, Hn. auto using tidy_strip.
Qed.

Lemma filtered_output_has_clean_lines_witness :
  let output :=
    lit "Loading project" ++ [nl] ++ lit "  The answer is 4.  " ++ [nl]
    ++ lit "Conversation saved" ++ [nl] in
  extract_claude_response output <> strip output /\
  Forall (fun line => noisy line = false /\ blank line = false /\ strip line = line)
         (split_on nl (extract_claude_response output)).
Proof.
  cbv zeta.
  assert (H : extract_claude_response
                (lit "Loading project" ++ [nl] ++ lit "  The answer is 4.  " ++ [nl]
                 ++ lit "Conversation saved" ++ [nl])
              <> strip (lit "Loading project" ++ [nl] ++ lit "  The answer is 4.  "
                        ++ [nl] ++ lit "Conversation saved" ++ [nl])).
  { vm_compute. discriminate. }
  split; [exact H|].
  apply filtered_output_has_clean_lines. exact H.
Defined.


(** X18.  For a prompt and a completion of fewer than [2^40] words each,
    the float estimates lose nothing: [prompt_tokens] and
    [completion_tokens] are exactly [13 * words / 10] rounded down. *)
Theorem token_fields_are_exact :
  forall iface w request t resp t',
    create_chat_completion iface w request t = (Return resp, t') ->
    (count_words (prompt_of request) < 2 ^ 40)%Z ->
    (forall c, In c (choices resp) ->
               (count_words (content (message c)) < 2 ^ 40)%Z) ->
    prompt_tokens (usage resp) = (13 * count_words (prompt_of request) / 10)%Z /\
    Forall (fun c => completion_tokens (usage resp)
                     = (13 * count_words (content (message c)) / 10)%Z)
           (choices resp).
Proof.
  intros iface w request t resp t' Hret Hprompt Hcompletion.
  destruct (completion_returns _ _ _ _ Hret) as (response & _ & _ & ->).
  cbv zeta in *.
  specialize (Hcompletion _ (or_introl eq_refl)).
  cbn [completion_body usage prompt_tokens completion_tokens choices
       message content says] in *.
  unfold prompt_of, count_words in *. split.
  - apply estimate_floor. lia.
  - apply Forall_cons; [|apply Forall_nil].
    cbn [message content says]. apply estimate_floor. lia.
Qed.

Lemma token_fields_are_exact_witness :
  let request :=
    request_with (lit "claude-sonnet-4")
      [ says (lit "user") (lit "what is seven times six") ] None in
  let w := world_where (Process (fun _ => Communicated (lit "forty two, of course") [] 0%Z)) in
  exists resp t',
    create_chat_completion (claude_interface w) w request [] = (Return resp, t') /\
    prompt_tokens (usage resp) = 6%Z /\
    completion_tokens (usage resp) = 5%Z.
Proof.
  cbv zeta. eexists. eexists.
  assert (H : create_chat_completion
                (claude_interface
                   (world_where (Process (fun _ =>
                      Communicated (lit "forty two, of course") [] 0%Z))))
                (world_where (Process (fun _ =>
                   Communicated (lit "forty two, of course") [] 0%Z)))
                (request_with (lit "claude-sonnet-4")
                   [ says (lit "user") (lit "what is seven times six") ] None) []
              = (Return _, _)) by (vm_compute; reflexivity).
  split; [exact H|].
  destruct (@token_fields_are_exact _ _ _ _ _ _ H) as [Hp Hc].
  - vm_compute. reflexivity.
  - intros c [<-|[]]. vm_compute. reflexivity.
  - split.
    + rewrite Hp. vm_compute. reflexivity.
    + inversion Hc as [|c cs Hhead _]; subst. rewrite Hhead.
      vm_compute. reflexivity.
Defined.
